(** * Meeting-slot matcher: [find_best_times]

    A shallow embedding of [find_best_times] from [src/scheduler.py] (the copy
    in [src/api/index.py] is the same function with its [print] calls commented
    out) and the properties of its return value.

    The embedding follows the Python text statement by statement:
    - a [for] loop that updates a local variable is a left fold ([foldl]) or,
      when the body can [return] or [break], a structural recursion on the
      list being iterated;
    - a Python [set] of [(day, hour)] tuples is a [gset (Day * Z)];
    - the dict [day_mapping] is a [gmap Day Z]; subscripting it can raise
      [KeyError];
    - an operation that can raise lives in the [Result] monad;
    - Python integers are unbounded, hence [Z].

    The [print] calls of [src/scheduler.py] write to standard output only and
    have no influence on the returned value; they are not modelled. *)

From stdpp Require Import base decidable countable gmap sets list sorting.
From stdpp Require Import strings.
From Stdlib Require Import ZArith Lia.
From Stdlib Require Import Floats.PrimFloat.

#[local] Set Warnings "-register-all".

Local Open Scope Z_scope.

(** ** Data model *)

(** [TimeSlot.day] is [Literal["Monday", ..., "Friday"]]: a five-valued
    enumeration. *)
Inductive Day : Type := Monday | Tuesday | Wednesday | Thursday | Friday.

#[global] Instance Day_eq_dec : EqDecision Day.
Proof. solve_decision. Defined.

Definition Day_to_nat (d : Day) : nat :=
  match d with
  | Monday => 0 | Tuesday => 1 | Wednesday => 2 | Thursday => 3 | Friday => 4
  end%nat.

Definition Day_of_nat (n : nat) : Day :=
  match n with
  | 0 => Monday | 1 => Tuesday | 2 => Wednesday | 3 => Thursday | _ => Friday
  end%nat.

#[global] Instance Day_countable : Countable Day.
Proof.
  apply (inj_countable' Day_to_nat Day_of_nat). by intros [].
Defined.

(** [class TimeSlot(BaseModel)].  The field constraint [ge=9, le=16] on
    [hour] is checked by pydantic when a value is built, not by
    [find_best_times]; the embedding keeps [hour] an arbitrary integer, so
    every theorem below holds in particular for validated slots. *)
Record TimeSlot : Type := { day : Day; hour : Z }.

(** [class UserInput(BaseModel)]: two Python lists, order and duplicates
    included. *)
Record UserInput : Type := {
  available_slots : list TimeSlot;
  preferred_slots : list TimeSlot
}.

(** The dict [{'day': day, 'hour': hour, 'score': current_score}] appended to
    [ranked_slots]. *)
Record RankedSlot : Type := { rs_day : Day; rs_hour : Z; rs_score : Z }.

(** A [(day, hour)] tuple, the element type of [common_slots]. *)
Abbreviation Pair := (Day * Z)%type.

(** ** Exceptions *)

Inductive exn : Type := IndexError | KeyError.

Inductive Result (A : Type) : Type :=
  | Ok (a : A)
  | Raise (e : exn).
Arguments Ok {A} a.
Arguments Raise {A} e.

#[global] Instance Result_ret : MRet Result := λ A a, Ok a.
#[global] Instance Result_bind : MBind Result := λ A B f m,
  match m with
  | Ok a => f a
  | Raise e => Raise e
  end.

(** ** Python primitives used by [find_best_times] *)

(** Truth value of a list: [not users_data] is [negb (list_truth users_data)]. *)
Definition list_truth {A} (l : list A) : bool :=
  match l with
  | [] => false
  | _ :: _ => true
  end.

(** [l[i]] for a non-negative index. *)
Definition list_getitem {A} (l : list A) (i : nat) : Result A :=
  match l !! i with
  | Some x => Ok x
  | None => Raise IndexError
  end.

(** [d[k]] on a dict. *)
Definition dict_getitem (d : gmap Day Z) (k : Day) : Result Z :=
  match d !! k with
  | Some v => Ok v
  | None => Raise KeyError
  end.

(** [s.add(x)]. *)
Definition set_add (s : gset Pair) (x : Pair) : gset Pair := s ∪ {[ x ]}.

(** [<] on 3-tuples of integers: the first position where the tuples differ
    decides. *)
Definition tuple_lt (a b : Z * Z * Z) : bool :=
  let '(a1, a2, a3) := a in
  let '(b1, b2, b3) := b in
  if negb (a1 =? b1) then a1 <? b1
  else if negb (a2 =? b2) then a2 <? b2
  else a3 <? b3.

(** [sorted(l, key=...)] is stable and compares keys with [<] only.  The
    keys are computed first, once per element and in list order; then the
    decorated list is sorted.  [insert_sorted] puts an element in front of
    the first element whose key is not smaller, so that among equal keys the
    original order is kept. *)
Fixpoint insert_sorted {A} (x : (Z * Z * Z) * A) (l : list ((Z * Z * Z) * A))
  : list ((Z * Z * Z) * A) :=
  match l with
  | [] => [x]
  | y :: l' =>
      if tuple_lt (fst y) (fst x) then y :: insert_sorted x l'
      else x :: y :: l'
  end.

Definition sort_decorated {A} (l : list ((Z * Z * Z) * A))
  : list ((Z * Z * Z) * A) :=
  foldr insert_sorted [] l.

Fixpoint map_keys {A} (key : A → Result (Z * Z * Z)) (l : list A)
  : Result (list ((Z * Z * Z) * A)) :=
  match l with
  | [] => mret []
  | x :: l' =>
      k ← key x;
      rest ← map_keys key l';
      mret ((k, x) :: rest)
  end.

Definition sorted {A} (key : A → Result (Z * Z * Z)) (l : list A)
  : Result (list A) :=
  decorated ← map_keys key l;
  mret (snd <$> sort_decorated decorated).

(** ** [find_best_times] *)

(** Lines 44-46 and 51-53: the set of [(slot.day, slot.hour)] tuples of a
    list of slots, built by repeated [add]. *)
Definition slot_set (slots : list TimeSlot) : gset Pair :=
  foldl (λ s slot, set_add s (day slot, hour slot)) ∅ slots.

(** How an iteration of a loop whose body may [return] ends. *)
Inductive Flow (S R : Type) : Type :=
  | Next (s : S)
  | Return (r : R).
Arguments Next {S R} s.
Arguments Return {S R} r.

(** Lines 50-63: the loop over [remaining_users].  The loop variable [i] of
    [enumerate] is used in messages only. *)
Fixpoint intersect_remaining (common_slots : gset Pair)
    (remaining_users : list UserInput) : Flow (gset Pair) (list RankedSlot) :=
  match remaining_users with
  | [] => Next common_slots
  | user :: rest =>
      let current_user_slots := slot_set (available_slots user) in
      let common_slots := common_slots ∩ current_user_slots in
      if (size common_slots =? 0)%nat then Return []
      else intersect_remaining common_slots rest
  end.

(** Lines 73-77: the search through one user's [preferred_slots]; [break] at
    the first match. *)
Fixpoint found_preference (prefs : list TimeSlot) (d : Day) (h : Z) : bool :=
  match prefs with
  | [] => false
  | pref :: rest =>
      if bool_decide (day pref = d) && (hour pref =? h) then true
      else found_preference rest d h
  end.

(** Lines 71-79: [current_score] after the loop over [users_data]. *)
Definition current_score (users_data : list UserInput) (d : Day) (h : Z) : Z :=
  foldl (λ score user,
           if found_preference (preferred_slots user) d h then score + 1
           else score)
        0 users_data.

(** Lines 84-86. *)
Definition day_mapping : gmap Day Z :=
  list_to_map
    [(Monday, 1); (Tuesday, 2); (Wednesday, 3); (Thursday, 4); (Friday, 5)].

(** Lines 92-115. *)
Definition get_sorting_priorities (slot : RankedSlot) : Result (Z * Z * Z) :=
  let sort_by_score := rs_score slot * -1 in
  sort_by_day ← dict_getitem day_mapping (rs_day slot);
  let sort_by_hour := rs_hour slot in
  mret (sort_by_score, sort_by_day, sort_by_hour).

(** Lines 66-121, given the order [iteration] in which [for day, hour in
    common_slots] visits the set.  Python leaves that order unspecified;
    [rank_and_sort_order_irrelevant] below shows that the returned list does
    not depend on it. *)
Definition rank_and_sort (users_data : list UserInput) (iteration : list Pair)
  : Result (list RankedSlot) :=
  let ranked_slots :=
    foldl (λ ranked_slots '(d, h),
             ranked_slots ++
               [{| rs_day := d; rs_hour := h;
                   rs_score := current_score users_data d h |}])
          [] iteration in
  sorted get_sorting_priorities ranked_slots.

(** Lines 38-121. *)
Definition find_best_times (users_data : list UserInput)
  : Result (list RankedSlot) :=
  if negb (list_truth users_data) then mret []
  else
    first_user ← list_getitem users_data 0;
    let common_slots := slot_set (available_slots first_user) in
    let remaining_users := drop 1 users_data in
    match intersect_remaining common_slots remaining_users with
    | Return r => mret r
    | Next common_slots => rank_and_sort users_data (elements common_slots)
    end.

(** The variant without lines 61-63: every remaining participant is
    intersected, whatever the running set has become. *)
Fixpoint intersect_all (common_slots : gset Pair)
    (remaining_users : list UserInput) : gset Pair :=
  match remaining_users with
  | [] => common_slots
  | user :: rest =>
      let current_user_slots := slot_set (available_slots user) in
      intersect_all (common_slots ∩ current_user_slots) rest
  end.

Definition find_best_times_no_short_circuit (users_data : list UserInput)
  : Result (list RankedSlot) :=
  if negb (list_truth users_data) then mret []
  else
    first_user ← list_getitem users_data 0;
    let common_slots := slot_set (available_slots first_user) in
    let remaining_users := drop 1 users_data in
    let common_slots := intersect_all common_slots remaining_users in
    rank_and_sort users_data (elements common_slots).

(** ** The call as the caller sees it

    Python passes [users_data] by reference: the function works on the
    caller's list object and on the [UserInput] and [TimeSlot] objects
    reachable from it.  [Heap] is the state of these objects, and a
    computation of type [M A] may read and change it.  The locals of
    [find_best_times] ([common_slots], [current_user_slots], [ranked_slots],
    the list built by the slice [users_data[1:]], the list built by [sorted])
    are objects the function creates itself; they are no part of [Heap]. *)
Definition Heap : Type := list UserInput.

Definition M (A : Type) : Type := Heap → Result A * Heap.

Definition retM {A} (a : A) : M A := λ h, (Ok a, h).

Definition bindM {A B} (m : M A) (f : A → M B) : M B := λ h,
  match m h with
  | (Ok a, h') => f a h'
  | (Raise e, h') => (Raise e, h')
  end.

Notation "x ⇐ m ; k" := (bindM m (λ x, k))
  (at level 20, m at level 100, k at level 200, only parsing).

(** An expression that reads the argument. *)
Definition load {A} (f : Heap → Result A) : M A := λ h, (f h, h).

(** A statement that changes the argument ([users_data.clear()], an
    assignment to [user.available_slots], ...). *)
Definition store (f : Heap → Heap) : M unit := λ h, (Ok (), f h).

(** A computation on values already read. *)
Definition pure {A} (r : Result A) : M A := λ h, (r, h).

(** Lines 70-81 with the accesses to [users_data] spelled out: the inner
    loop [for user in users_data] reads the argument once for every
    candidate pair. *)
Fixpoint rank_on_heap (iteration : list Pair) (ranked_slots : list RankedSlot)
  : M (list RankedSlot) :=
  match iteration with
  | [] => retM ranked_slots
  | (d, h) :: rest =>
      users ⇐ load (λ users_data, Ok users_data);
      rank_on_heap rest
        (ranked_slots ++
           [{| rs_day := d; rs_hour := h; rs_score := current_score users d h |}])
  end.

(** Lines 38-121 with the accesses to [users_data] spelled out.  The body of
    [find_best_times] contains no assignment to [users_data], to an element
    of it or to an attribute of a participant or of a slot, and calls no
    method on them: all its accesses are [load]s.  [sorted] builds a new list
    from the local [ranked_slots]. *)
Definition find_best_times_on_heap : M (list RankedSlot) :=
  falsy ⇐ load (λ users_data, Ok (negb (list_truth users_data)));
  if (falsy : bool) then retM []
  else
    first_user ⇐ load (λ users_data, list_getitem users_data 0);
    let common_slots := slot_set (available_slots first_user) in
    remaining_users ⇐ load (λ users_data, Ok (drop 1 users_data));
    match intersect_remaining common_slots remaining_users with
    | Return r => retM r
    | Next common_slots =>
        ranked_slots ⇐ rank_on_heap (elements common_slots) [];
        pure (sorted get_sorting_priorities ranked_slots)
    end.

(** A computation that leaves the argument as it found it. *)
Definition read_only {A} (m : M A) : Prop := ∀ h, (m h).2 = h.

(** [find_best_times] again, with the order in which line 70 iterates the
    set [common_slots] made a parameter: [set_iter s] lists the elements of
    [s] in the order of the iteration.  (CPython's order depends on the hash
    values of the tuples, which for strings change from one process to the
    next.) *)
Definition find_best_times_iterating (set_iter : gset Pair → list Pair)
    (users_data : list UserInput) : Result (list RankedSlot) :=
  if negb (list_truth users_data) then mret []
  else
    first_user ← list_getitem users_data 0;
    let common_slots := slot_set (available_slots first_user) in
    let remaining_users := drop 1 users_data in
    match intersect_remaining common_slots remaining_users with
    | Return r => mret r
    | Next common_slots => rank_and_sort users_data (set_iter common_slots)
    end.

(** ** The request handler [schedule] of [src/api/index.py]

    Lines 131-153.  The handler works on whatever [request.get_json()]
    returns: any JSON value, as Python's [json] module decodes it ([None],
    [bool], [int], [float], [str], [list], [dict] with string keys). *)
Inductive JSON : Type :=
  | JNull
  | JBool (b : bool)
  | JInt (n : Z)
  | JFloat (f : float)
  | JStr (s : string)
  | JList (l : list JSON)
  | JDict (d : gmap string JSON).

(** The exceptions the handler can meet: [TypeError] from its own
    expressions, the exceptions of [find_best_times], and whatever
    [request.get_json()] or [get_user_data] raise (an HTTP error, a
    connection error of the model server, a pydantic [ValidationError], ...),
    kept by their message.  All of them derive from [Exception]. *)
Inductive Exception : Type :=
  | TypeError
  | Builtin (e : exn)
  | Other (msg : string).

Inductive Outcome (A : Type) : Type :=
  | Returned (a : A)
  | Raised (e : Exception).
Arguments Returned {A} a.
Arguments Raised {A} e.

#[global] Instance Outcome_ret : MRet Outcome := λ A a, Returned a.
#[global] Instance Outcome_bind : MBind Outcome := λ A B f m,
  match m with
  | Returned a => f a
  | Raised e => Raised e
  end.

(** A call of [find_best_times] inside the handler. *)
Definition of_result {A} (r : Result A) : Outcome A :=
  match r with
  | Ok a => Returned a
  | Raise e => Raised (Builtin e)
  end.

(** The body handed to [jsonify]: [{'recommended_times': results}],
    [{'error': '<text>'}] or [{'error': str(e)}]. *)
Inductive Body : Type :=
  | recommended_times (results : list RankedSlot)
  | error (text : string)
  | error_str (e : Exception).

(** The pair [(jsonify(...), status)] a view returns. *)
Record Response : Type := { body : Body; status : Z }.

(** Truth value of a decoded JSON value ([not data] is its negation). *)
Definition json_truth (data : JSON) : bool :=
  match data with
  | JNull => false
  | JBool b => b
  | JInt n => negb (n =? 0)
  | JFloat f => negb (PrimFloat.eqb f 0%float)
  | JStr s => negb (String.eqb s "")
  | JList l => list_truth l
  | JDict d => negb (size d =? 0)%nat
  end.

(** [needle in s] on strings. *)
Fixpoint str_contains (needle s : string) : bool :=
  String.prefix needle s ||
  match s with
  | EmptyString => false
  | String _ s' => str_contains needle s'
  end.

(** [x == key] for a decoded JSON value [x] and a string [key]. *)
Definition json_eq_str (key : string) (x : JSON) : bool :=
  match x with
  | JStr s => String.eqb s key
  | _ => false
  end.

(** [key in data]: key test on a dict, element test on a list, substring
    test on a string; the other values are no containers. *)
Definition json_contains (key : string) (data : JSON) : Outcome bool :=
  match data with
  | JDict d => mret (bool_decide (is_Some (d !! key)))
  | JList l => mret (existsb (json_eq_str key) l)
  | JStr s => mret (str_contains key s)
  | JNull | JBool _ | JInt _ | JFloat _ => Raised TypeError
  end.

(** [data[key]] for a string [key]: only a dict can be subscripted with a
    string. *)
Definition json_getitem (data : JSON) (key : string) : Outcome JSON :=
  match data with
  | JDict d =>
      match d !! key with
      | Some v => mret v
      | None => Raised (Builtin KeyError)
      end
  | _ => Raised TypeError
  end.

(** [isinstance(msgs, list)], with the elements when it holds. *)
Definition as_list (msgs : JSON) : option (list JSON) :=
  match msgs with
  | JList l => Some l
  | _ => None
  end.

(** The double quote inside the first error text. *)
Definition dquote : string := String (Ascii.ascii_of_nat 34) EmptyString.

(** Line 136 and line 140. *)
Definition missing_messages : Response :=
  {| body := error ("Missing " +:+ dquote +:+ "messages" +:+ dquote +:+
                    " list in request body");
     status := 400 |}.
Definition messages_not_a_list : Response :=
  {| body := error (dquote +:+ "messages" +:+ dquote +:+
                    " must be a list of strings");
     status := 400 |}.

(** Lines 142-146: the loop over [enumerate(msgs)].  [get_user_data] asks a
    language model, so its outcome is a parameter of the handler; it is
    indexed by the position of the call, as the model need not treat equal
    texts equally. *)
Fixpoint extract_users (get_user_data : nat → JSON → Outcome UserInput)
    (i : nat) (msgs : list JSON) (users_data : list UserInput)
  : Outcome (list UserInput) :=
  match msgs with
  | [] => mret users_data
  | m :: rest =>
      user_data ← get_user_data i m;
      extract_users get_user_data (S i) rest (users_data ++ [user_data])
  end.

(** Lines 134-149: the body of the [try]. *)
Definition schedule_try (get_json : Outcome JSON)
    (get_user_data : nat → JSON → Outcome UserInput) : Outcome Response :=
  data ← get_json;
  missing ← (if negb (json_truth data) then mret true
             else found ← json_contains "messages" data; mret (negb found));
  if (missing : bool) then mret missing_messages
  else
    msgs ← json_getitem data "messages";
    match as_list msgs with
    | None => mret messages_not_a_list
    | Some msgs =>
        users_data ← extract_users get_user_data 0 msgs [];
        results ← of_result (find_best_times users_data);
        mret {| body := recommended_times results; status := 200 |}
    end.

(** Lines 132-153: [except Exception as e] turns every exception into a
    response with status 500. *)
Definition schedule (get_json : Outcome JSON)
    (get_user_data : nat → JSON → Outcome UserInput) : Response :=
  match schedule_try get_json get_user_data with
  | Returned response => response
  | Raised e => {| body := error_str e; status := 500 |}
  end.

(** The decoded request bodies that line 135 or line 139 turn away:
    a false value; a dict without the key; a dict whose ["messages"] is no
    list; a list without the element ["messages"]; a string that does not
    contain [messages]. *)
Definition rejected (data : JSON) : Prop :=
  json_truth data = false ∨
  (∃ d, data = JDict d ∧ d !! "messages" = None) ∨
  (∃ d v, data = JDict d ∧ d !! "messages" = Some v ∧ ∀ l, v ≠ JList l) ∨
  (∃ l, data = JList l ∧ JStr "messages" ∉ l) ∨
  (∃ s, data = JStr s ∧ ¬ ∃ pre post, s = pre +:+ "messages" +:+ post).

(** The decoded bodies that get past line 135 although they are no dict. *)
Definition not_subscriptable (data : JSON) : Prop :=
  data = JBool true ∨
  (∃ n, data = JInt n ∧ n ≠ 0) ∨
  (∃ f, data = JFloat f ∧ PrimFloat.eqb f 0%float = false) ∨
  (∃ l, data = JList l ∧ JStr "messages" ∈ l) ∨
  (∃ pre post, data = JStr (pre +:+ "messages" +:+ post)).

(** ** Validated slots *)

(** [hour: int = Field(ge=9, le=16)] (line 7). *)
Definition hour_in_range (h : Z) : Prop := 9 ≤ h ≤ 16.

(** The slots pydantic accepts. *)
Definition all_slots : list Pair :=
  d ← [Monday; Tuesday; Wednesday; Thursday; Friday];
  h ← [9; 10; 11; 12; 13; 14; 15; 16];
  [(d, h)].

(** ** Vocabulary of the specification *)

(** The [(day, hour)] pairs of a list of slots. *)
Definition pairs_of (slots : list TimeSlot) : list Pair :=
  (λ s, (day s, hour s)) <$> slots.

(** The [(day, hour)] pairs of a returned list. *)
Definition slot_pairs (out : list RankedSlot) : list Pair :=
  (λ r, (rs_day r, rs_hour r)) <$> out.

(** Participant [u] is available at [p]; participant [u] prefers [p]. *)
Definition available_at (u : UserInput) (p : Pair) : Prop :=
  p ∈ pairs_of (available_slots u).
Definition prefers (u : UserInput) (p : Pair) : Prop :=
  p ∈ pairs_of (preferred_slots u).

#[global] Instance available_at_dec u p : Decision (available_at u p).
Proof. unfold available_at. apply _. Defined.
#[global] Instance prefers_dec u p : Decision (prefers u p).
Proof. unfold prefers. apply _. Defined.

(** [p] lies in the intersection of the participants' available sets. *)
Definition in_intersection (users_data : list UserInput) (p : Pair) : Prop :=
  ∀ u, u ∈ users_data → available_at u p.

(** The number of participants (counted by position in the input) that
    prefer [p]. *)
Definition preference_count (users_data : list UserInput) (p : Pair) : Z :=
  Z.of_nat (length (filter (λ u, prefers u p) users_data)).

(** Monday=1 through Friday=5. *)
Definition day_rank (d : Day) : Z :=
  match d with
  | Monday => 1 | Tuesday => 2 | Wednesday => 3 | Thursday => 4 | Friday => 5
  end.

(** The composite key [(-score, day rank, hour)] and its ascending order. *)
Definition sort_key (r : RankedSlot) : Z * Z * Z :=
  (- rs_score r, day_rank (rs_day r), rs_hour r).

Definition key_le (a b : Z * Z * Z) : Prop :=
  a.1.1 < b.1.1 ∨
  (a.1.1 = b.1.1 ∧ (a.1.2 < b.1.2 ∨ (a.1.2 = b.1.2 ∧ a.2 ≤ b.2))).

(** The order of the returned list. *)
Definition ranked_le (a b : RankedSlot) : Prop :=
  key_le (sort_key a) (sort_key b).

(** Property P3 of the specification at one input: the pairs of the returned
    list are exactly the pairs that every participant is available at. *)
Definition intersection_correct (users_data : list UserInput) : Prop :=
  ∃ out, find_best_times users_data = Ok out ∧
         ∀ p, p ∈ slot_pairs out ↔ in_intersection users_data p.

(** ** Auxiliary definitions of the proofs *)

(** The order on key-decorated elements: keys only. *)
Definition dec_le {A} (x y : (Z * Z * Z) * A) : Prop := key_le (fst x) (fst y).

(** The record built for a candidate pair. *)
Definition rank (users_data : list UserInput) (p : Pair) : RankedSlot :=
  {| rs_day := p.1; rs_hour := p.2; rs_score := preference_count users_data p |}.

(** The candidate set after all participants have been intersected. *)
Definition candidates (users_data : list UserInput) : gset Pair :=
  match users_data with
  | [] => ∅
  | first_user :: remaining_users =>
      intersect_all (slot_set (available_slots first_user)) remaining_users
  end.

(** ** Scenarios of the specification, run on the model *)

Definition slot (d : Day) (h : Z) : TimeSlot := {| day := d; hour := h |}.
Definition ranked (d : Day) (h : Z) (s : Z) : RankedSlot :=
  {| rs_day := d; rs_hour := h; rs_score := s |}.

(** Participants A and B of scenario 1, and a participant C that shares no
    slot with A. *)
Definition participant_A : UserInput :=
  {| available_slots := [slot Monday 9; slot Monday 10];
     preferred_slots := [slot Monday 9] |}.
Definition participant_B : UserInput :=
  {| available_slots := [slot Monday 9];
     preferred_slots := [slot Monday 9] |}.
Definition participant_C : UserInput :=
  {| available_slots := [slot Friday 16; slot Friday 16];
     preferred_slots := [slot Monday 9; slot Friday 16; slot Friday 16] |}.

Example scenario_1 :
  find_best_times [participant_A; participant_B] = Ok [ranked Monday 9 2].
Proof. vm_compute. reflexivity. Qed.

Example scenario_4 :
  find_best_times
    [ {| available_slots := [slot Monday 9; slot Tuesday 10];
         preferred_slots := [slot Tuesday 10] |};
      {| available_slots := [slot Monday 9; slot Tuesday 10];
         preferred_slots := [slot Monday 9] |} ]
  = Ok [ranked Monday 9 1; ranked Tuesday 10 1].
Proof. vm_compute. reflexivity. Qed.

Example scenario_2 :
  find_best_times [participant_A; participant_B; participant_C] = Ok [].
Proof. vm_compute. reflexivity. Qed.

Example scenario_3 :
  find_best_times
    [ {| available_slots := [slot Tuesday 10]; preferred_slots := [] |} ]
  = Ok [ranked Tuesday 10 0].
Proof. vm_compute. reflexivity. Qed.

Example scenario_5 : find_best_times [] = Ok [].
Proof. reflexivity. Qed.

(** Repeated entries in a participant's lists: one returned slot, one point. *)
Example repeated_entries :
  find_best_times [participant_C] = Ok [ranked Friday 16 1].
Proof. vm_compute. reflexivity. Qed.

(** Score first, then weekday, then hour. *)
Example ranking_order :
  find_best_times
    [ {| available_slots :=
           [slot Friday 9; slot Tuesday 11; slot Tuesday 10; slot Monday 16];
         preferred_slots := [slot Friday 9] |} ]
  = Ok [ranked Friday 9 1; ranked Monday 16 0; ranked Tuesday 10 0;
        ranked Tuesday 11 0].
Proof. vm_compute. reflexivity. Qed.

(** Participant C with its lists tidied up, participant A with one more
    preference, and an extractor and a request for the handler. *)
Definition participant_C_tidy : UserInput :=
  {| available_slots := [slot Friday 16];
     preferred_slots := [slot Friday 16; slot Monday 9] |}.
Definition participant_A_keen : UserInput :=
  {| available_slots := [slot Monday 9; slot Monday 10];
     preferred_slots := [slot Monday 9; slot Monday 10] |}.
Definition sample_extractor (i : nat) (m : JSON) : Outcome UserInput :=
  match m with
  | JStr _ => Returned (if (i =? 0)%nat then participant_A else participant_B)
  | _ => Raised (Other "no text")
  end.
Definition sample_messages : list JSON :=
  [JStr "mornings"; JInt 3; JStr "Monday at 9"].
Definition sample_request : gmap string JSON :=
  {[ "messages" := JList sample_messages ]}.

Example schedule_two_texts :
  schedule (Returned (JDict {[ "messages" := JList [JStr "a"; JStr "b"] ]}))
           sample_extractor
  = {| body := recommended_times [ranked Monday 9 2]; status := 200 |}.
Proof. vm_compute. reflexivity. Qed.

Example schedule_no_body :
  schedule (Returned JNull) sample_extractor = missing_messages.
Proof. reflexivity. Qed.

(** ** Sets of slots *)

Section slot_sets.
Implicit Types (s : gset Pair) (p : Pair) (slots : list TimeSlot).

Lemma elem_of_add_all s slots p :
  p ∈ foldl (λ s slot, set_add s (day slot, hour slot)) s slots
  ↔ p ∈ s ∨ p ∈ pairs_of slots.
Proof.
  revert s. induction slots as [|x slots IH]; intros s; simpl.
  - rewrite elem_of_nil. tauto.
  - rewrite IH. unfold set_add. rewrite elem_of_union, elem_of_singleton.
    rewrite elem_of_cons. intuition congruence.
Qed.

Lemma elem_of_slot_set slots p : p ∈ slot_set slots ↔ p ∈ pairs_of slots.
Proof.
  unfold slot_set. rewrite elem_of_add_all, elem_of_empty. tauto.
Qed.

Lemma slot_set_nil : slot_set [] = ∅.
Proof. reflexivity. Qed.

Lemma elem_of_intersect_all s (rest : list UserInput) p :
  p ∈ intersect_all s rest ↔ p ∈ s ∧ in_intersection rest p.
Proof.
  revert s. induction rest as [|u rest IH]; intros s; simpl.
  - unfold in_intersection. split; [|tauto].
    intros Hp. split; [done|]. intros u Hu. by apply elem_of_nil in Hu.
  - rewrite IH, elem_of_intersection, elem_of_slot_set.
    unfold in_intersection, available_at. split.
    + intros [[Hs Hu] Hrest]. split; [done|].
      intros v Hv. apply elem_of_cons in Hv as [->|Hv]; auto.
    + intros [Hs Hall]. repeat split; [done|..].
      * apply Hall. by left.
      * intros v Hv. apply Hall. by right.
Qed.

Lemma intersect_all_empty (rest : list UserInput) :
  intersect_all ∅ rest = ∅.
Proof.
  apply set_eq. intros p. rewrite elem_of_intersect_all, !elem_of_empty. tauto.
Qed.

Lemma size_eqb_0 s : (size s =? 0)%nat = bool_decide (s = ∅).
Proof.
  case_bool_decide as He.
  - subst. by rewrite size_empty.
  - apply Nat.eqb_neq. intros Hs. apply He, leibniz_equiv.
    by apply size_empty_inv.
Qed.

(** The loop with the early [return] against the loop without it. *)
Lemma intersect_remaining_spec s (rest : list UserInput) :
  match intersect_remaining s rest with
  | Next s' => s' = intersect_all s rest
  | Return r => r = [] ∧ intersect_all s rest = ∅
  end.
Proof.
  revert s. induction rest as [|u rest IH]; intros s; simpl; [done|].
  rewrite size_eqb_0. case_bool_decide as He.
  - split; [done|]. rewrite He. apply intersect_all_empty.
  - apply IH.
Qed.
End slot_sets.

(** ** Scores *)

Section scores.
Implicit Types (users_data : list UserInput) (d : Day) (h : Z).

Lemma found_preference_iff (prefs : list TimeSlot) d h :
  found_preference prefs d h = true ↔ (d, h) ∈ pairs_of prefs.
Proof.
  induction prefs as [|pref prefs IH]; simpl.
  - rewrite elem_of_nil. split; [discriminate|tauto].
  - rewrite elem_of_cons.
    destruct (bool_decide (day pref = d) && (hour pref =? h)) eqn:E.
    + apply andb_true_iff in E as [Ed Eh].
      apply bool_decide_eq_true in Ed. apply Z.eqb_eq in Eh.
      split; [|done]. intros _. left. congruence.
    + rewrite IH. split; [tauto|]. intros [Heq|Hin]; [|done].
      inversion Heq; subst.
      rewrite bool_decide_eq_true_2, Z.eqb_refl in E by done. discriminate.
Qed.

Lemma found_preference_prefers (u : UserInput) d h :
  found_preference (preferred_slots u) d h = bool_decide (prefers u (d, h)).
Proof.
  apply eq_true_iff_eq.
  rewrite bool_decide_eq_true. apply found_preference_iff.
Qed.

Lemma score_loop users_data d h (score : Z) :
  foldl (λ score user,
           if found_preference (preferred_slots user) d h then score + 1
           else score)
        score users_data
  = score + preference_count users_data (d, h).
Proof.
  unfold preference_count. revert score.
  induction users_data as [|u users_data IH]; intros score; simpl; [lia|].
  rewrite IH, found_preference_prefers, filter_cons.
  case_bool_decide as Hp.
  - rewrite decide_True by done. simpl length. lia.
  - rewrite decide_False by done. lia.
Qed.

Lemma current_score_count users_data d h :
  current_score users_data d h = preference_count users_data (d, h).
Proof. unfold current_score. rewrite score_loop. lia. Qed.

Lemma preference_count_perm users_data users_data' p :
  users_data ≡ₚ users_data' →
  preference_count users_data p = preference_count users_data' p.
Proof. intros Hp. unfold preference_count. by rewrite Hp. Qed.
End scores.

(** ** Sorting *)

Section sorting.
Context {A : Type}.
Implicit Types (x y : (Z * Z * Z) * A) (l : list ((Z * Z * Z) * A)).

Lemma tuple_lt_true (a b : Z * Z * Z) : tuple_lt a b = true → key_le a b.
Proof.
  destruct a as [[a1 a2] a3], b as [[b1 b2] b3]. unfold tuple_lt, key_le.
  simpl. destruct (Z.eqb_spec a1 b1), (Z.eqb_spec a2 b2); simpl;
    rewrite Z.ltb_lt; lia.
Qed.

Lemma tuple_lt_false (a b : Z * Z * Z) : tuple_lt a b = false → key_le b a.
Proof.
  destruct a as [[a1 a2] a3], b as [[b1 b2] b3]. unfold tuple_lt, key_le.
  simpl. destruct (Z.eqb_spec a1 b1), (Z.eqb_spec a2 b2); simpl;
    rewrite Z.ltb_ge; lia.
Qed.

Lemma key_le_trans (a b c : Z * Z * Z) : key_le a b → key_le b c → key_le a c.
Proof. unfold key_le. lia. Qed.

Lemma key_le_antisym (a b : Z * Z * Z) : key_le a b → key_le b a → a = b.
Proof.
  destruct a as [[a1 a2] a3], b as [[b1 b2] b3]. unfold key_le. simpl.
  intros H1 H2. repeat f_equal; lia.
Qed.

Lemma insert_sorted_perm x l : insert_sorted x l ≡ₚ x :: l.
Proof.
  induction l as [|y l IH]; simpl; [done|].
  destruct (tuple_lt y.1 x.1); [|done].
  rewrite IH. apply Permutation_swap.
Qed.

Lemma sort_decorated_perm l : sort_decorated l ≡ₚ l.
Proof.
  induction l as [|x l IH]; simpl; [done|].
  rewrite insert_sorted_perm. by f_equiv.
Qed.

Lemma insert_sorted_sorted x l :
  StronglySorted dec_le l → StronglySorted dec_le (insert_sorted x l).
Proof.
  induction 1 as [|y l Hl IH Hy]; simpl.
  - repeat constructor.
  - destruct (tuple_lt y.1 x.1) eqn:E.
    + constructor; [done|].
      rewrite insert_sorted_perm. constructor; [|done].
      by apply tuple_lt_true.
    + apply tuple_lt_false in E.
      constructor; [by constructor|].
      constructor; [done|].
      eapply Forall_impl; [exact Hy|].
      intros z Hz. eapply key_le_trans; [exact E|exact Hz].
Qed.

Lemma sort_decorated_sorted l : StronglySorted dec_le (sort_decorated l).
Proof.
  induction l as [|x l IH]; simpl; [constructor|].
  by apply insert_sorted_sorted.
Qed.

(** A key function that never raises. *)
Lemma map_keys_total (key : A → Result (Z * Z * Z)) (k : A → Z * Z * Z)
    (xs : list A) :
  (∀ a, key a = Ok (k a)) →
  map_keys key xs = Ok ((λ a, (k a, a)) <$> xs).
Proof.
  intros Hkey. induction xs as [|a xs IH]; simpl; [done|].
  by rewrite Hkey, IH.
Qed.

Lemma sorted_total (key : A → Result (Z * Z * Z)) (k : A → Z * Z * Z)
    (xs : list A) :
  (∀ a, key a = Ok (k a)) →
  ∃ out, sorted key xs = Ok out ∧ out ≡ₚ xs ∧
         StronglySorted (λ a b, key_le (k a) (k b)) out.
Proof.
  intros Hkey. unfold sorted. rewrite (map_keys_total key k) by done.
  set (dl := (λ a, (k a, a)) <$> xs).
  exists (snd <$> sort_decorated dl). split; [done|]. split.
  - rewrite sort_decorated_perm. unfold dl.
    rewrite <-list_fmap_compose. by rewrite list_fmap_id.
  - assert (Forall (λ x, x.1 = k x.2) (sort_decorated dl)) as Hdec.
    { rewrite sort_decorated_perm. unfold dl.
      apply Forall_fmap, Forall_true. done. }
    pose proof (sort_decorated_sorted dl) as Hs.
    induction Hs as [|y l Hl IH Hy]; simpl; [constructor|].
    apply Forall_cons in Hdec as [Hy1 Hdec].
    constructor; [by apply IH|].
    apply Forall_fmap.
    rewrite Forall_forall in Hy, Hdec. apply Forall_forall.
    intros z Hz. simpl. specialize (Hy z Hz). specialize (Hdec z Hz).
    unfold dec_le in Hy. by rewrite Hy1, Hdec in Hy.
Qed.
End sorting.

Lemma day_mapping_lookup (d : Day) : day_mapping !! d = Some (day_rank d).
Proof. by destruct d. Qed.

Lemma get_sorting_priorities_total (r : RankedSlot) :
  get_sorting_priorities r = Ok (sort_key r).
Proof.
  unfold get_sorting_priorities, dict_getitem, sort_key.
  rewrite day_mapping_lookup. simpl.
  by replace (rs_score r * -1) with (- rs_score r) by lia.
Qed.

(** ** The ranking loop and the whole function *)

Lemma ranked_slots_loop (users_data : list UserInput) (iteration : list Pair)
    (acc : list RankedSlot) :
  foldl (λ ranked_slots '(d, h),
           ranked_slots ++
             [{| rs_day := d; rs_hour := h;
                 rs_score := current_score users_data d h |}])
        acc iteration
  = acc ++ (rank users_data <$> iteration).
Proof.
  revert acc. induction iteration as [|[d h] iteration IH]; intros acc; simpl.
  - by rewrite app_nil_r.
  - rewrite IH, <-app_assoc. simpl. unfold rank at 2. simpl.
    by rewrite current_score_count.
Qed.

Lemma rank_and_sort_spec (users_data : list UserInput) (iteration : list Pair) :
  ∃ out, rank_and_sort users_data iteration = Ok out ∧
         out ≡ₚ rank users_data <$> iteration ∧
         StronglySorted ranked_le out.
Proof.
  unfold rank_and_sort. rewrite ranked_slots_loop. simpl.
  apply (sorted_total get_sorting_priorities sort_key).
  apply get_sorting_priorities_total.
Qed.

Lemma rank_and_sort_nil (users_data : list UserInput) :
  rank_and_sort users_data [] = Ok [].
Proof. reflexivity. Qed.

Lemma day_rank_inj (d d' : Day) : day_rank d = day_rank d' → d = d'.
Proof. by destruct d, d'. Qed.

Lemma ranked_le_antisym (users_data : list UserInput) (p q : Pair) :
  ranked_le (rank users_data p) (rank users_data q) →
  ranked_le (rank users_data q) (rank users_data p) →
  p = q.
Proof.
  intros H1 H2. pose proof (key_le_antisym _ _ H1 H2) as E.
  destruct p as [d h], q as [d' h']. unfold sort_key, rank in E. simpl in E.
  inversion E as [[Es Ed Eh]]. apply day_rank_inj in Ed. by subst.
Qed.

(** The order in which the set [common_slots] is iterated has no influence on
    the returned list. *)
Lemma rank_and_sort_order_irrelevant (users_data : list UserInput)
    (iteration iteration' : list Pair) :
  iteration ≡ₚ iteration' →
  rank_and_sort users_data iteration = rank_and_sort users_data iteration'.
Proof.
  intros Hperm.
  destruct (rank_and_sort_spec users_data iteration) as (out & -> & Hp & Hs).
  destruct (rank_and_sort_spec users_data iteration') as (out' & -> & Hp' & Hs').
  f_equal. apply (StronglySorted_unique_strong ranked_le); [|done..|].
  - intros x y Hx Hy Hxy Hyx.
    rewrite Hp in Hx. rewrite Hp' in Hy.
    apply list_elem_of_fmap in Hx as (p & -> & _).
    apply list_elem_of_fmap in Hy as (q & -> & _).
    f_equal. by eapply ranked_le_antisym.
  - by rewrite Hp, Hp', Hperm.
Qed.

Lemma find_best_times_no_short_circuit_eq (users_data : list UserInput) :
  find_best_times_no_short_circuit users_data
  = rank_and_sort users_data (elements (candidates users_data)).
Proof.
  destruct users_data as [|first_user remaining_users].
  - simpl. by rewrite elements_empty.
  - reflexivity.
Qed.

Lemma find_best_times_eq (users_data : list UserInput) :
  find_best_times users_data
  = rank_and_sort users_data (elements (candidates users_data)).
Proof.
  destruct users_data as [|first_user remaining_users].
  - simpl. by rewrite elements_empty.
  - unfold find_best_times, candidates.
    cbn [list_truth negb list_getitem lookup list_lookup mbind Result_bind drop].
    rewrite drop_0.
    pose proof (intersect_remaining_spec
                  (slot_set (available_slots first_user)) remaining_users) as H.
    destruct (intersect_remaining _ remaining_users) as [s'|r].
    + by subst.
    + destruct H as [-> ->]. by rewrite elements_empty.
Qed.

Lemma find_best_times_spec (users_data : list UserInput) :
  ∃ out, find_best_times users_data = Ok out ∧
         out ≡ₚ rank users_data <$> elements (candidates users_data) ∧
         StronglySorted ranked_le out.
Proof. rewrite find_best_times_eq. apply rank_and_sort_spec. Qed.

(** Whatever order Python iterates [common_slots] in at line 70, the list
    returned is the one computed here with [elements]. *)
Lemma find_best_times_any_iteration (users_data : list UserInput)
    (iteration : list Pair) :
  iteration ≡ₚ elements (candidates users_data) →
  rank_and_sort users_data iteration = find_best_times users_data.
Proof.
  intros Hp. rewrite find_best_times_eq.
  by apply rank_and_sort_order_irrelevant.
Qed.

(** The returned list is the only arrangement of its entries that ascends
    in the key: whichever sorting algorithm [sorted] runs, this is its
    output. *)
Lemma find_best_times_unique_arrangement (users_data : list UserInput)
    (out out' : list RankedSlot) :
  find_best_times users_data = Ok out →
  out' ≡ₚ out → StronglySorted ranked_le out' → out' = out.
Proof.
  intros Hout Hperm Hs'.
  destruct (find_best_times_spec users_data) as (out0 & Hout0 & Hp & Hs).
  rewrite Hout in Hout0. inversion Hout0; subst out0.
  apply (StronglySorted_unique_strong ranked_le); [|done..].
  intros x y Hx Hy Hxy Hyx. rewrite Hperm, Hp in Hx. rewrite Hp in Hy.
  apply list_elem_of_fmap in Hx as (p & -> & _).
  apply list_elem_of_fmap in Hy as (q & -> & _).
  f_equal. by eapply ranked_le_antisym.
Qed.

Lemma find_best_times_no_candidates (users_data : list UserInput) :
  candidates users_data = ∅ → find_best_times users_data = Ok [].
Proof.
  intros He. by rewrite find_best_times_eq, He, elements_empty.
Qed.

Lemma elem_of_candidates (users_data : list UserInput) (p : Pair) :
  users_data ≠ [] → p ∈ candidates users_data ↔ in_intersection users_data p.
Proof.
  destruct users_data as [|u rest]; [done|]. intros _. simpl.
  rewrite elem_of_intersect_all, elem_of_slot_set.
  unfold in_intersection. split.
  - intros [Hu Hrest] v Hv. apply elem_of_cons in Hv as [->|Hv]; auto.
  - intros Hall. split; [apply Hall; by left|].
    intros v Hv. apply Hall. by right.
Qed.

Lemma slot_pairs_rank (users_data : list UserInput) (ps : list Pair) :
  slot_pairs (rank users_data <$> ps) = ps.
Proof.
  unfold slot_pairs. rewrite <-list_fmap_compose.
  rewrite <-(list_fmap_id ps) at 2. apply list_fmap_ext.
  by intros _ [d h] _.
Qed.

Lemma elem_of_slot_pairs (users_data : list UserInput) (out : list RankedSlot)
    (p : Pair) :
  out ≡ₚ rank users_data <$> elements (candidates users_data) →
  p ∈ slot_pairs out ↔ p ∈ candidates users_data.
Proof.
  intros Hp. unfold slot_pairs. rewrite Hp.
  fold (slot_pairs (rank users_data <$> elements (candidates users_data))).
  by rewrite slot_pairs_rank, elem_of_elements.
Qed.

Lemma StronglySorted_lookup {A} (R : relation A) (l : list A) (i j : nat)
    (a b : A) :
  StronglySorted R l → (i < j)%nat → l !! i = Some a → l !! j = Some b →
  R a b.
Proof.
  intros Hs. revert i j. induction Hs as [|x l Hl IH Hx]; intros i j Hij Hi Hj.
  - by rewrite lookup_nil in Hi.
  - destruct j as [|j]; [lia|]. simpl in Hj. destruct i as [|i]; simpl in Hi.
    + inversion Hi; subst. rewrite Forall_forall in Hx.
      apply Hx. by eapply list_elem_of_lookup_2.
    + apply (IH i j); [lia|done..].
Qed.

Lemma in_intersection_perm (users_data users_data' : list UserInput) (p : Pair) :
  users_data ≡ₚ users_data' →
  in_intersection users_data p ↔ in_intersection users_data' p.
Proof.
  intros Hp. unfold in_intersection.
  split; intros H u Hu; apply H; [by rewrite Hp|by rewrite <-Hp].
Qed.

Lemma preference_count_singleton (u : UserInput) (p : Pair) :
  preference_count [u] p = if decide (prefers u p) then 1 else 0.
Proof.
  unfold preference_count. rewrite filter_cons, filter_nil.
  by destruct (decide (prefers u p)).
Qed.

(** ** Properties of the returned list *)

(** C1, as stated, fails on the empty input: line 39 returns the empty list,
    while every pair, (Monday, 9) for one, lies in the intersection of no
    sets at all. *)
Lemma C1_empty_input_not_intersection : ¬ intersection_correct [].
Proof.
  intros (out & Hout & Hiff). simpl in Hout. inversion Hout; subst.
  assert ((Monday, 9) ∈ slot_pairs []) as Hin.
  { apply Hiff. intros u Hu. by apply elem_of_nil in Hu. }
  by apply elem_of_nil in Hin.
Qed.

(** C1 (amended): for every non-empty input, the set of (day, hour) pairs of
    the list returned by [find_best_times] equals the intersection of the
    participants' available slots. *)
Theorem C1_intersection_correct (users_data : list UserInput) :
  users_data ≠ [] → intersection_correct users_data.
Proof.
  intros Hne. destruct (find_best_times_spec users_data) as (out & Hout & Hp & _).
  exists out. split; [done|]. intros p.
  by rewrite (elem_of_slot_pairs users_data), elem_of_candidates.
Qed.

(** C2: the returned list is ascending in the key (-score, day rank, hour):
    of two entries the earlier one has the higher score, or the same score
    and the earlier weekday, or the same score and weekday and an hour that is
    not later. *)
Theorem C2_sorted_by_composite_key (users_data : list UserInput) :
  ∃ out, find_best_times users_data = Ok out ∧
    ∀ (i j : nat) (a b : RankedSlot),
      (i < j)%nat → out !! i = Some a → out !! j = Some b →
      key_le (sort_key a) (sort_key b) ∧
      (rs_score a > rs_score b ∨
       (rs_score a = rs_score b ∧
        (day_rank (rs_day a) < day_rank (rs_day b) ∨
         (day_rank (rs_day a) = day_rank (rs_day b) ∧
          rs_hour a ≤ rs_hour b)))).
Proof.
  destruct (find_best_times_spec users_data) as (out & Hout & _ & Hs).
  exists out. split; [done|]. intros i j a b Hij Hi Hj.
  pose proof (StronglySorted_lookup _ _ _ _ _ _ Hs Hij Hi Hj) as Hle.
  split; [exact Hle|].
  unfold ranked_le, key_le, sort_key in Hle. simpl in Hle. lia.
Qed.

(** C3: the score of every returned slot is the number of participants of the
    whole input whose preferred slots contain that (day, hour) pair; a
    participant counts once, however often the pair occurs in its list. *)
Theorem C3_score_counts_participants (users_data : list UserInput) :
  ∃ out, find_best_times users_data = Ok out ∧
    ∀ r, r ∈ out →
      rs_score r = preference_count users_data (rs_day r, rs_hour r).
Proof.
  destruct (find_best_times_spec users_data) as (out & Hout & Hp & _).
  exists out. split; [done|]. intros r Hr. rewrite Hp in Hr.
  apply list_elem_of_fmap in Hr as ([d h] & -> & _). reflexivity.
Qed.

(** C4: for a single participant the returned pairs are exactly the pairs of
    its available slots, each scored 1 when the participant prefers it and 0
    otherwise. *)
Theorem C4_single_participant (u : UserInput) :
  ∃ out, find_best_times [u] = Ok out ∧
    (∀ p, p ∈ slot_pairs out ↔ p ∈ pairs_of (available_slots u)) ∧
    (∀ r, r ∈ out →
       rs_score r
       = if decide ((rs_day r, rs_hour r) ∈ pairs_of (preferred_slots u))
         then 1 else 0).
Proof.
  destruct (find_best_times_spec [u]) as (out & Hout & Hp & _).
  exists out. split; [done|]. split.
  - intros p. rewrite (elem_of_slot_pairs [u]) by done. simpl.
    apply elem_of_slot_set.
  - intros r Hr. rewrite Hp in Hr.
    apply list_elem_of_fmap in Hr as ([d h] & -> & _). simpl.
    apply preference_count_singleton.
Qed.

(** C5: with or without the early return on an empty running set,
    [find_best_times] returns the same list. *)
Theorem C5_short_circuit_is_optimization (users_data : list UserInput) :
  find_best_times users_data = find_best_times_no_short_circuit users_data.
Proof.
  by rewrite find_best_times_eq, find_best_times_no_short_circuit_eq.
Qed.

(** C6: permuting the input does not change the set of (day, hour) pairs of
    the returned list. *)
Theorem C6_candidates_order_independent (users_data users_data' : list UserInput) :
  users_data ≡ₚ users_data' →
  ∃ out out', find_best_times users_data = Ok out ∧
              find_best_times users_data' = Ok out' ∧
              ∀ p, p ∈ slot_pairs out ↔ p ∈ slot_pairs out'.
Proof.
  intros Hperm.
  destruct (find_best_times_spec users_data) as (out & Hout & Hp & _).
  destruct (find_best_times_spec users_data') as (out' & Hout' & Hp' & _).
  exists out, out'. split; [done|]. split; [done|]. intros p.
  rewrite (elem_of_slot_pairs users_data) by done.
  rewrite (elem_of_slot_pairs users_data') by done.
  destruct users_data as [|u rest].
  - apply Permutation_nil in Hperm. by subst.
  - assert (users_data' ≠ []) as Hne'.
    { intros ->. symmetry in Hperm. by apply Permutation_nil in Hperm. }
    rewrite !elem_of_candidates by done.
    apply in_intersection_perm, Hperm.
Qed.

(** C7: when two participants, wherever they stand in the input, have no
    available slot in common, the returned list is empty. *)
Theorem C7_disjoint_pair_gives_empty (users_data : list UserInput)
    (i j : nat) (u v : UserInput) :
  i ≠ j → users_data !! i = Some u → users_data !! j = Some v →
  (∀ p, ¬ (available_at u p ∧ available_at v p)) →
  find_best_times users_data = Ok [].
Proof.
  intros _ Hi Hj Hdisj. apply find_best_times_no_candidates.
  assert (users_data ≠ []) as Hne by (intros ->; by rewrite lookup_nil in Hi).
  apply set_eq. intros p. rewrite elem_of_candidates, elem_of_empty by done.
  split; [|done]. intros Hall. apply (Hdisj p).
  split; apply Hall; by eapply list_elem_of_lookup_2.
Qed.

(** C8: [find_best_times] raises on no input; on the empty input and on an
    input with a participant without available slots it returns the empty
    list. *)
Theorem C8_never_raises :
  (∀ users_data, ∃ out, find_best_times users_data = Ok out) ∧
  find_best_times [] = Ok [] ∧
  (∀ users_data u, u ∈ users_data → available_slots u = [] →
                   find_best_times users_data = Ok []).
Proof.
  split; [|split].
  - intros users_data.
    destruct (find_best_times_spec users_data) as (out & Hout & _). eauto.
  - reflexivity.
  - intros users_data u Hu Hnil. apply find_best_times_no_candidates.
    assert (users_data ≠ []) as Hne by (intros ->; by apply elem_of_nil in Hu).
    apply set_eq. intros p. rewrite elem_of_candidates, elem_of_empty by done.
    split; [|done]. intros Hall. specialize (Hall u Hu).
    unfold available_at in Hall. rewrite Hnil in Hall. by apply elem_of_nil in Hall.
Qed.

(** C9: the (day, hour) pairs of the returned list are pairwise distinct,
    whatever duplicates the participants' lists contain. *)
Theorem C9_pairs_distinct (users_data : list UserInput) :
  ∃ out, find_best_times users_data = Ok out ∧ NoDup (slot_pairs out).
Proof.
  destruct (find_best_times_spec users_data) as (out & Hout & Hp & _).
  exists out. split; [done|]. unfold slot_pairs. rewrite Hp.
  fold (slot_pairs (rank users_data <$> elements (candidates users_data))).
  rewrite slot_pairs_rank. apply NoDup_elements.
Qed.

(** ** The argument after the call *)

Lemma read_only_retM {A} (a : A) : read_only (retM a).
Proof. by intros h. Qed.

Lemma read_only_load {A} (f : Heap → Result A) : read_only (load f).
Proof. by intros h. Qed.

Lemma read_only_pure {A} (r : Result A) : read_only (pure r).
Proof. by intros h. Qed.

Lemma read_only_bindM {A B} (m : M A) (f : A → M B) :
  read_only m → (∀ a, read_only (f a)) → read_only (bindM m f).
Proof.
  intros Hm Hf h. unfold bindM. specialize (Hm h).
  destruct (m h) as [[a|e] h']; simpl in Hm; subst; [apply Hf|done].
Qed.

(** A statement that empties the caller's list is not read-only. *)
Example store_not_read_only : ¬ read_only (store (λ _, [])).
Proof. intros H. specialize (H [participant_A]). discriminate H. Qed.

Lemma rank_on_heap_read_only (iteration : list Pair)
    (ranked_slots : list RankedSlot) :
  read_only (rank_on_heap iteration ranked_slots).
Proof.
  revert ranked_slots.
  induction iteration as [|[d h] rest IH]; intros ranked_slots; simpl.
  - apply read_only_retM.
  - apply read_only_bindM; [apply read_only_load|]. intros users. apply IH.
Qed.

Lemma rank_on_heap_result (iteration : list Pair)
    (ranked_slots : list RankedSlot) (users_data : Heap) :
  (rank_on_heap iteration ranked_slots users_data).1
  = Ok (foldl (λ ranked_slots '(d, h),
                 ranked_slots ++
                   [{| rs_day := d; rs_hour := h;
                       rs_score := current_score users_data d h |}])
              ranked_slots iteration).
Proof.
  revert ranked_slots.
  induction iteration as [|[d h] rest IH]; intros ranked_slots; [done|].
  simpl. unfold bindM, load. simpl. apply IH.
Qed.

Lemma find_best_times_on_heap_read_only : read_only find_best_times_on_heap.
Proof.
  unfold find_best_times_on_heap.
  apply read_only_bindM; [apply read_only_load|]. intros [|].
  { apply read_only_retM. }
  apply read_only_bindM; [apply read_only_load|]. intros first_user.
  apply read_only_bindM; [apply read_only_load|]. intros remaining_users.
  destruct (intersect_remaining _ remaining_users).
  - apply read_only_bindM; [apply rank_on_heap_read_only|]. intros ranked_slots.
    apply read_only_pure.
  - apply read_only_retM.
Qed.

Lemma find_best_times_on_heap_result (users_data : Heap) :
  (find_best_times_on_heap users_data).1 = find_best_times users_data.
Proof.
  destruct users_data as [|first_user remaining_users]; [reflexivity|].
  unfold find_best_times_on_heap, find_best_times, bindM at 1 2 3, load, retM.
  cbn [list_truth negb list_getitem lookup list_lookup mbind Result_bind drop].
  rewrite drop_0.
  destruct (intersect_remaining _ remaining_users) as [common_slots|r]; [|done].
  unfold bindM, rank_and_sort.
  pose proof (rank_on_heap_result (elements common_slots) []
                (first_user :: remaining_users)) as Hr.
  pose proof (rank_on_heap_read_only (elements common_slots) []
                (first_user :: remaining_users)) as Hh.
  destruct (rank_on_heap _ _ _) as [res h']. simpl in Hr, Hh. by subst.
Qed.

(** C10: the call leaves the caller's list and every participant's
    [available_slots] and [preferred_slots] as they were, and returns what
    [find_best_times] computes from them. *)
Theorem C10_input_not_modified (users_data : Heap) :
  (find_best_times_on_heap users_data).2 = users_data ∧
  (find_best_times_on_heap users_data).1 = find_best_times users_data.
Proof.
  split.
  - apply find_best_times_on_heap_read_only.
  - apply find_best_times_on_heap_result.
Qed.

(** ** The theorems with hypotheses, at concrete inputs *)

Lemma C1_intersection_correct_witness :
  [participant_A; participant_B] ≠ [] ∧
  intersection_correct [participant_A; participant_B].
Proof.
  split; [done|]. apply C1_intersection_correct. done.
Defined.

Lemma C6_candidates_order_independent_witness :
  [participant_A; participant_B] ≡ₚ [participant_B; participant_A] ∧
  ∃ out out',
    find_best_times [participant_A; participant_B] = Ok out ∧
    find_best_times [participant_B; participant_A] = Ok out' ∧
    ∀ p, p ∈ slot_pairs out ↔ p ∈ slot_pairs out'.
Proof.
  split; [apply perm_swap|].
  apply C6_candidates_order_independent. apply perm_swap.
Defined.

Lemma participants_A_C_disjoint (p : Pair) :
  ¬ (available_at participant_A p ∧ available_at participant_C p).
Proof.
  unfold available_at. simpl. intros [HA HC].
  rewrite !elem_of_cons, elem_of_nil in HA.
  rewrite !elem_of_cons, elem_of_nil in HC.
  destruct HA as [->|[->|[]]], HC as [?|[?|[]]]; discriminate.
Qed.

Lemma C7_disjoint_pair_gives_empty_witness :
  0%nat ≠ 2%nat ∧
  [participant_A; participant_B; participant_C] !! 0%nat = Some participant_A ∧
  [participant_A; participant_B; participant_C] !! 2%nat = Some participant_C ∧
  (∀ p, ¬ (available_at participant_A p ∧ available_at participant_C p)) ∧
  find_best_times [participant_A; participant_B; participant_C] = Ok [].
Proof.
  split; [lia|]. split; [reflexivity|]. split; [reflexivity|].
  split; [exact participants_A_C_disjoint|].
  apply (C7_disjoint_pair_gives_empty
           [participant_A; participant_B; participant_C] 0 2
           participant_A participant_C);
    [lia|reflexivity|reflexivity|exact participants_A_C_disjoint].
Defined.

(** ** Further properties of [find_best_times] *)

Lemma rank_and_sort_ext (users_data users_data' : list UserInput)
    (iteration iteration' : list Pair) :
  iteration ≡ₚ iteration' →
  (∀ p, p ∈ iteration →
        preference_count users_data p = preference_count users_data' p) →
  rank_and_sort users_data iteration = rank_and_sort users_data' iteration'.
Proof.
  intros Hperm Hcount.
  rewrite <-(rank_and_sort_order_irrelevant users_data' _ _ Hperm).
  destruct (rank_and_sort_spec users_data iteration) as (out & -> & Hp & Hs).
  destruct (rank_and_sort_spec users_data' iteration) as (out' & -> & Hp' & Hs').
  assert (rank users_data' <$> iteration = rank users_data <$> iteration) as Hr.
  { apply list_fmap_ext. intros i p Hi. unfold rank. f_equal. symmetry.
    apply Hcount. by eapply list_elem_of_lookup_2. }
  rewrite Hr in Hp'.
  f_equal. apply (StronglySorted_unique_strong ranked_le); [|done..|].
  - intros x y Hx Hy Hxy Hyx. rewrite Hp in Hx. rewrite Hp' in Hy.
    apply list_elem_of_fmap in Hx as (p & -> & _).
    apply list_elem_of_fmap in Hy as (q & -> & _).
    f_equal. by eapply ranked_le_antisym.
  - by rewrite Hp, Hp'.
Qed.

Lemma find_best_times_ext (users_data users_data' : list UserInput) :
  (users_data = [] ↔ users_data' = []) →
  (∀ p, in_intersection users_data p ↔ in_intersection users_data' p) →
  (∀ p, in_intersection users_data p →
        preference_count users_data p = preference_count users_data' p) →
  find_best_times users_data = find_best_times users_data'.
Proof.
  intros Hnil Hinter Hcount.
  destruct users_data as [|u rest].
  { by rewrite (proj1 Hnil eq_refl). }
  assert (users_data' ≠ []) as Hne' by (intros E; by apply Hnil in E).
  assert (candidates (u :: rest) = candidates users_data') as Hc.
  { apply set_eq. intros p. by rewrite !elem_of_candidates. }
  rewrite !find_best_times_eq, <-Hc.
  apply rank_and_sort_ext; [done|]. intros p Hp. apply Hcount.
  apply elem_of_candidates; [done|]. by apply elem_of_elements.
Qed.

Lemma slot_pairs_perm (users_data : list UserInput) (out : list RankedSlot) :
  out ≡ₚ rank users_data <$> elements (candidates users_data) →
  slot_pairs out ≡ₚ elements (candidates users_data).
Proof.
  intros Hp. unfold slot_pairs. rewrite Hp.
  fold (slot_pairs (rank users_data <$> elements (candidates users_data))).
  by rewrite slot_pairs_rank.
Qed.

Lemma preference_count_bounds (users_data : list UserInput) (p : Pair) :
  0 ≤ preference_count users_data p ≤ Z.of_nat (length users_data).
Proof.
  unfold preference_count.
  pose proof (length_filter (λ u, prefers u p) users_data). lia.
Qed.

Lemma in_intersection_Forall2 (users_data users_data' : list UserInput)
    (p : Pair) :
  Forall2 (λ u u', available_at u p ↔ available_at u' p)
          users_data users_data' →
  in_intersection users_data p ↔ in_intersection users_data' p.
Proof.
  unfold in_intersection. induction 1 as [|u u' us us' Hu _ IH].
  - split; intros _ v Hv; by apply elem_of_nil in Hv.
  - split; intros Hall v Hv; apply elem_of_cons in Hv as [->|Hv].
    + apply Hu, Hall. by left.
    + revert v Hv. apply IH. intros w Hw. apply Hall. by right.
    + apply Hu, Hall. by left.
    + revert v Hv. apply IH. intros w Hw. apply Hall. by right.
Qed.

Lemma preference_count_Forall2 (users_data users_data' : list UserInput)
    (p : Pair) :
  Forall2 (λ u u', prefers u p ↔ prefers u' p) users_data users_data' →
  preference_count users_data p = preference_count users_data' p.
Proof.
  unfold preference_count. intros H. f_equal.
  induction H as [|u u' us us' Hu _ IH]; [done|].
  rewrite !filter_cons.
  destruct (decide (prefers u p)) as [Hp|Hp], (decide (prefers u' p)) as [Hp'|Hp'];
    simpl; try (by rewrite IH); tauto.
Qed.

Lemma elem_of_all_slots (d : Day) (h : Z) :
  hour_in_range h → (d, h) ∈ all_slots.
Proof.
  intros Hh. unfold hour_in_range in Hh. unfold all_slots.
  apply list_elem_of_bind. exists d. split.
  - apply list_elem_of_bind. exists h. split; [by apply list_elem_of_singleton|].
    assert (h = 9 ∨ h = 10 ∨ h = 11 ∨ h = 12 ∨ h = 13 ∨ h = 14 ∨ h = 15 ∨
            h = 16) as Hcases by lia.
    rewrite !elem_of_cons. tauto.
  - destruct d; rewrite !elem_of_cons; tauto.
Qed.

(** X1: the order in which line 70 iterates the set [common_slots] has no
    influence on the list returned: with any enumeration of the set in place
    of the one the model uses, the function returns the same list. *)
Theorem X1_set_iteration_order_irrelevant (set_iter : gset Pair → list Pair)
    (users_data : list UserInput) :
  (∀ s, set_iter s ≡ₚ elements s) →
  find_best_times_iterating set_iter users_data = find_best_times users_data.
Proof.
  intros Hiter. unfold find_best_times_iterating, find_best_times.
  destruct (negb (list_truth users_data)); [done|].
  destruct (list_getitem users_data 0) as [first_user|e]; [|done].
  cbn [mbind Result_bind].
  destruct (intersect_remaining _ _) as [common_slots|r]; [|done].
  apply rank_and_sort_order_irrelevant, Hiter.
Qed.

(** X2: the whole returned list, scores and order included, is the same for
    every permutation of the participants. *)
Theorem X2_participant_order_irrelevant (users_data users_data' : list UserInput) :
  users_data ≡ₚ users_data' →
  find_best_times users_data = find_best_times users_data'.
Proof.
  intros Hperm. apply find_best_times_ext.
  - split; intros ->.
    + by apply Permutation_nil in Hperm.
    + symmetry in Hperm. by apply Permutation_nil in Hperm.
  - intros p. by apply in_intersection_perm.
  - intros p _. by apply preference_count_perm.
Qed.

(** X3: every returned score lies between 0 and the number of
    participants. *)
Theorem X3_score_bounds (users_data : list UserInput) :
  ∃ out, find_best_times users_data = Ok out ∧
    ∀ r, r ∈ out → 0 ≤ rs_score r ≤ Z.of_nat (length users_data).
Proof.
  destruct (find_best_times_spec users_data) as (out & Hout & Hp & _).
  exists out. split; [done|]. intros r Hr. rewrite Hp in Hr.
  apply list_elem_of_fmap in Hr as (p & -> & _). simpl.
  apply preference_count_bounds.
Qed.

(** X4: no two returned entries have the same key (-score, day rank, hour):
    the list is strictly ascending, so the ranking has no ties. *)
Theorem X4_strictly_ascending (users_data : list UserInput) :
  ∃ out, find_best_times users_data = Ok out ∧
    ∀ (i j : nat) (a b : RankedSlot),
      (i < j)%nat → out !! i = Some a → out !! j = Some b →
      key_le (sort_key a) (sort_key b) ∧ sort_key a ≠ sort_key b.
Proof.
  destruct (find_best_times_spec users_data) as (out & Hout & Hp & Hs).
  exists out. split; [done|]. intros i j a b Hij Hi Hj. split.
  - exact (StronglySorted_lookup _ _ _ _ _ _ Hs Hij Hi Hj).
  - intros Hkey. unfold sort_key in Hkey. inversion Hkey as [[Hsc Hd Hh]].
    apply day_rank_inj in Hd.
    assert (NoDup (slot_pairs out)) as Hnd.
    { rewrite (slot_pairs_perm users_data) by done. apply NoDup_elements. }
    assert (i = j); [|lia].
    apply (NoDup_lookup _ i j (rs_day a, rs_hour a) Hnd); unfold slot_pairs;
      rewrite list_lookup_fmap.
    + by rewrite Hi.
    + rewrite Hj. simpl. by rewrite Hd, Hh.
Qed.

(** X5: the returned list depends on the participants' lists only through
    the sets of (day, hour) pairs they contain; the order of the slots in
    [available_slots] and [preferred_slots] and repeated slots make no
    difference. *)
Theorem X5_only_the_sets_matter (users_data users_data' : list UserInput) :
  Forall2 (λ u u', (∀ p, available_at u p ↔ available_at u' p) ∧
                   (∀ p, prefers u p ↔ prefers u' p))
          users_data users_data' →
  find_best_times users_data = find_best_times users_data'.
Proof.
  intros H. apply find_best_times_ext.
  - destruct H; split; done.
  - intros p. apply in_intersection_Forall2.
    eapply Forall2_impl; [exact H|]. intros u u' [Ha _]. apply Ha.
  - intros p _. apply preference_count_Forall2.
    eapply Forall2_impl; [exact H|]. intros u u' [_ Hpr]. apply Hpr.
Qed.

(** X6: a preference for a slot that is not available to every participant
    has no effect: inputs that agree on the available slots, and on the
    preferences for the slots common to all, give the same list. *)
Theorem X6_preferences_outside_common_slots_ignored
    (users_data users_data' : list UserInput) :
  Forall2 (λ u u', available_slots u = available_slots u' ∧
                   (∀ p, in_intersection users_data p →
                         prefers u p ↔ prefers u' p))
          users_data users_data' →
  find_best_times users_data = find_best_times users_data'.
Proof.
  intros H. apply find_best_times_ext.
  - destruct H; split; done.
  - intros p. apply in_intersection_Forall2.
    eapply Forall2_impl; [exact H|]. intros u u' [Ha _].
    unfold available_at. by rewrite Ha.
  - intros p Hp. apply preference_count_Forall2.
    eapply Forall2_impl; [exact H|]. intros u u' [_ Hpr]. by apply Hpr.
Qed.

(** X7: further participants can only remove slots: every pair returned for
    a non-empty input extended by more participants is returned for the
    input itself. *)
Theorem X7_more_participants_fewer_slots
    (users_data more : list UserInput) :
  users_data ≠ [] →
  ∃ out out', find_best_times users_data = Ok out ∧
              find_best_times (users_data ++ more) = Ok out' ∧
              ∀ p, p ∈ slot_pairs out' → p ∈ slot_pairs out.
Proof.
  intros Hne.
  destruct (find_best_times_spec users_data) as (out & Hout & Hp & _).
  destruct (find_best_times_spec (users_data ++ more)) as (out' & Hout' & Hp' & _).
  exists out, out'. split; [done|]. split; [done|]. intros p.
  rewrite (elem_of_slot_pairs users_data out) by done.
  rewrite (elem_of_slot_pairs (users_data ++ more) out') by done.
  rewrite !elem_of_candidates; [|done|by destruct users_data].
  intros Hall u Hu. apply Hall, elem_of_app. by left.
Qed.

(** X8: the returned list is never longer than the [available_slots] list of
    any participant. *)
Theorem X8_length_bounded_by_each_participant
    (users_data : list UserInput) (u : UserInput) :
  u ∈ users_data →
  ∃ out, find_best_times users_data = Ok out ∧
         (length out ≤ length (available_slots u))%nat.
Proof.
  intros Hu.
  destruct (find_best_times_spec users_data) as (out & Hout & Hp & _).
  exists out. split; [done|].
  assert (users_data ≠ []) as Hne by (intros ->; by apply elem_of_nil in Hu).
  assert (slot_pairs out ⊆+ pairs_of (available_slots u)) as Hsub.
  { apply NoDup_submseteq.
    - rewrite (slot_pairs_perm users_data) by done. apply NoDup_elements.
    - intros p. rewrite (elem_of_slot_pairs users_data) by done.
      rewrite elem_of_candidates by done. intros Hall. by apply Hall. }
  apply submseteq_length in Hsub. unfold slot_pairs, pairs_of in Hsub.
  by rewrite !length_fmap in Hsub.
Qed.

(** X9: when all available slots of at least one participant satisfy the
    field constraint 9 <= hour <= 16, so does every returned slot, and the
    returned list has at most 40 entries (5 days times 8 hours). *)
Theorem X9_validated_input_bounds_output
    (users_data : list UserInput) (u : UserInput) :
  u ∈ users_data →
  Forall (λ s, hour_in_range (hour s)) (available_slots u) →
  ∃ out, find_best_times users_data = Ok out ∧
         (∀ r, r ∈ out → hour_in_range (rs_hour r)) ∧
         (length out ≤ 40)%nat.
Proof.
  intros Hu Hvalid.
  destruct (find_best_times_spec users_data) as (out & Hout & Hp & _).
  exists out. split; [done|].
  assert (users_data ≠ []) as Hne by (intros ->; by apply elem_of_nil in Hu).
  assert (∀ p, p ∈ slot_pairs out → hour_in_range p.2) as Hrange.
  { intros p. rewrite (elem_of_slot_pairs users_data) by done.
    rewrite elem_of_candidates by done. intros Hall. specialize (Hall u Hu).
    unfold available_at, pairs_of in Hall.
    apply list_elem_of_fmap in Hall as (s & -> & Hs).
    rewrite Forall_forall in Hvalid. by apply Hvalid. }
  split.
  - intros r Hr. apply (Hrange (rs_day r, rs_hour r)).
    unfold slot_pairs. apply list_elem_of_fmap. by exists r.
  - assert (slot_pairs out ⊆+ all_slots) as Hsub.
    { apply NoDup_submseteq.
      - rewrite (slot_pairs_perm users_data) by done. apply NoDup_elements.
      - intros [d h] Hin. apply elem_of_all_slots. by apply (Hrange (d, h)). }
    apply submseteq_length in Hsub. unfold slot_pairs in Hsub.
    by rewrite length_fmap in Hsub.
Qed.

(** ** The request handler *)

Section handler.
Implicit Types (get_user_data : nat → JSON → Outcome UserInput).
Implicit Types (msgs : list JSON) (users_data : list UserInput).

Lemma append_String (c : Ascii.ascii) (a b : string) :
  String c a +:+ b = String c (a +:+ b).
Proof. reflexivity. Qed.

Lemma prefix_iff (a s : string) :
  String.prefix a s = true ↔ ∃ post, s = a +:+ post.
Proof.
  revert s. induction a as [|c a IH]; intros s; simpl.
  - destruct s; (split; [intros _; eexists; reflexivity|done]).
  - setoid_rewrite append_String. destruct s as [|c' s]; simpl.
    + split; [done|]. intros [post Hpost]. discriminate.
    + destruct (Ascii.ascii_dec c c') as [->|Hne].
      * rewrite IH. split; intros [post Hpost]; exists post; congruence.
      * split; [done|]. intros [post Hpost]. congruence.
Qed.

Lemma str_contains_iff (a s : string) :
  str_contains a s = true ↔ ∃ pre post, s = pre +:+ a +:+ post.
Proof.
  induction s as [|c s IH]; cbn [str_contains].
  - rewrite orb_false_r, prefix_iff. split.
    + intros [post Hpost]. by exists "", post.
    + intros (pre & post & Hs). destruct pre; [by exists post|].
      rewrite append_String in Hs. discriminate.
  - rewrite orb_true_iff, prefix_iff, IH. split.
    + intros [[post Hpost]|(pre & post & Hs)].
      * by exists "", post.
      * exists (String c pre), post. rewrite append_String. by rewrite Hs.
    + intros (pre & post & Hs). destruct pre as [|c' pre].
      * left. by exists post.
      * right. exists pre, post. rewrite append_String in Hs. congruence.
Qed.

Lemma json_eq_str_true (key : string) (x : JSON) :
  json_eq_str key x = true ↔ x = JStr key.
Proof.
  destruct x; simpl; try (split; [discriminate|congruence]).
  rewrite String.eqb_eq. split; congruence.
Qed.

Lemma existsb_json_eq_str (key : string) (l : list JSON) :
  existsb (json_eq_str key) l = true ↔ JStr key ∈ l.
Proof.
  rewrite existsb_exists. split.
  - intros (x & Hx & Heq). apply json_eq_str_true in Heq as ->.
    by apply list_elem_of_In.
  - intros Hin. exists (JStr key). split; [by apply list_elem_of_In|].
    by apply json_eq_str_true.
Qed.

(** The loop of lines 142-146 against the answers message by message. *)
Lemma extract_users_returned get_user_data (i : nat) msgs users_data
    (result : list UserInput) :
  extract_users get_user_data i msgs users_data = Returned result ↔
  ∃ new, result = users_data ++ new ∧ length new = length msgs ∧
         ∀ k m, msgs !! k = Some m →
                ∃ u, new !! k = Some u ∧
                     get_user_data (i + k)%nat m = Returned u.
Proof.
  revert i users_data.
  induction msgs as [|m0 msgs IH]; intros i users_data; simpl.
  - split.
    + intros [= <-]. exists []. rewrite app_nil_r. split; [done|].
      split; [done|]. intros k m Hk. by rewrite lookup_nil in Hk.
    + intros (new & -> & Hlen & _). destruct new; [|done].
      by rewrite app_nil_r.
  - destruct (get_user_data i m0) as [u0|e] eqn:Hg; simpl.
    + rewrite IH. split.
      * intros (new & -> & Hlen & Hall). exists (u0 :: new).
        rewrite <-app_assoc. split; [done|]. split; [simpl; lia|].
        intros [|k] m Hk; simpl in Hk.
        -- inversion Hk; subst. exists u0. by rewrite Nat.add_0_r.
        -- destruct (Hall k m Hk) as (u & Hu & Hgu). exists u.
           split; [done|]. by replace (i + S k)%nat with (S i + k)%nat by lia.
      * intros (new & -> & Hlen & Hall).
        destruct new as [|u0' new]; [done|].
        destruct (Hall 0%nat m0 eq_refl) as (u & Hu & Hgu).
        rewrite Nat.add_0_r, Hg in Hgu. simpl in Hu.
        inversion Hu; inversion Hgu; subst.
        exists new. rewrite <-app_assoc. split; [done|].
        split; [simpl in Hlen; lia|]. intros k m Hk.
        destruct (Hall (S k) m Hk) as (u' & Hu' & Hgu'). exists u'.
        split; [done|]. by replace (S i + k)%nat with (i + S k)%nat by lia.
    + split; [done|]. intros (new & _ & _ & Hall).
      destruct (Hall 0%nat m0 eq_refl) as (u & _ & Hgu).
      rewrite Nat.add_0_r, Hg in Hgu. done.
Qed.


Lemma extract_users_raised get_user_data (i k : nat) msgs users_data
    (m : JSON) (e : Exception) :
  msgs !! k = Some m →
  get_user_data (i + k)%nat m = Raised e →
  (∀ j m', (j < k)%nat → msgs !! j = Some m' →
           ∃ u, get_user_data (i + j)%nat m' = Returned u) →
  extract_users get_user_data i msgs users_data = Raised e.
Proof.
  revert i k users_data.
  induction msgs as [|m0 msgs IH]; intros i k users_data Hk Hg Hbefore.
  - by rewrite lookup_nil in Hk.
  - simpl. destruct k as [|k]; simpl in Hk.
    + inversion Hk; subst. rewrite Nat.add_0_r in Hg. by rewrite Hg.
    + destruct (Hbefore 0%nat m0) as [u Hu]; [lia|done|].
      rewrite Nat.add_0_r in Hu. rewrite Hu. simpl.
      apply (IH (S i) k); [done|..].
      * by replace (S i + k)%nat with (i + S k)%nat by lia.
      * intros j m' Hj Hm'.
        replace (S i + j)%nat with (i + S j)%nat by lia.
        apply Hbefore; [lia|done].
Qed.

Lemma find_best_times_returns users_data :
  ∃ results, find_best_times users_data = Ok results.
Proof.
  destruct (find_best_times_spec users_data) as (out & Hout & _). eauto.
Qed.

(** What the handler answers to a dict with a list under ["messages"]. *)
Lemma schedule_try_messages get_user_data (d : gmap string JSON) msgs :
  d !! "messages" = Some (JList msgs) →
  schedule_try (Returned (JDict d)) get_user_data
  = (users_data ← extract_users get_user_data 0 msgs [];
     results ← of_result (find_best_times users_data);
     mret {| body := recommended_times results; status := 200 |}).
Proof.
  intros Hd. unfold schedule_try.
  cbn [mbind Outcome_bind mret Outcome_ret json_truth json_contains
       json_getitem].
  assert ((size d =? 0)%nat = false) as ->.
  { apply Nat.eqb_neq. intros Hs. apply map_size_empty_inv in Hs. subst.
    by rewrite lookup_empty in Hd. }
  simpl. rewrite Hd. rewrite bool_decide_eq_true_2 by eauto. done.
Qed.

End handler.

(** A complete case analysis of the handler's answer. *)
Lemma schedule_cases (get_json : Outcome JSON)
    (get_user_data : nat → JSON → Outcome UserInput) :
  match get_json with
  | Raised e =>
      schedule get_json get_user_data = {| body := error_str e; status := 500 |}
  | Returned data =>
      if negb (json_truth data)
      then schedule get_json get_user_data = missing_messages
      else
        match data with
        | JDict d =>
            match d !! "messages" with
            | None => schedule get_json get_user_data = missing_messages
            | Some (JList msgs) =>
                match extract_users get_user_data 0 msgs [] with
                | Returned users_data =>
                    ∃ results,
                      find_best_times users_data = Ok results ∧
                      schedule get_json get_user_data
                      = {| body := recommended_times results; status := 200 |}
                | Raised e =>
                    schedule get_json get_user_data
                    = {| body := error_str e; status := 500 |}
                end
            | Some _ => schedule get_json get_user_data = messages_not_a_list
            end
        | JList l =>
            if existsb (json_eq_str "messages") l
            then schedule get_json get_user_data
                 = {| body := error_str TypeError; status := 500 |}
            else schedule get_json get_user_data = missing_messages
        | JStr s =>
            if str_contains "messages" s
            then schedule get_json get_user_data
                 = {| body := error_str TypeError; status := 500 |}
            else schedule get_json get_user_data = missing_messages
        | _ =>
            schedule get_json get_user_data
            = {| body := error_str TypeError; status := 500 |}
        end
  end.
Proof.
  destruct get_json as [data|e]; [|done].
  destruct (negb (json_truth data)) eqn:Htruth.
  { unfold schedule, schedule_try. cbn [mbind Outcome_bind].
    by rewrite Htruth. }
  destruct data as [|b|n|f|s|l|d].
  - done.
  - unfold schedule, schedule_try. cbn [mbind Outcome_bind].
    by rewrite Htruth.
  - unfold schedule, schedule_try. cbn [mbind Outcome_bind].
    by rewrite Htruth.
  - unfold schedule, schedule_try. cbn [mbind Outcome_bind].
    by rewrite Htruth.
  - unfold schedule, schedule_try. cbn [mbind Outcome_bind].
    rewrite Htruth. cbn [json_contains mbind Outcome_bind mret Outcome_ret].
    by destruct (str_contains "messages" s).
  - unfold schedule, schedule_try. cbn [mbind Outcome_bind].
    rewrite Htruth. cbn [json_contains mbind Outcome_bind mret Outcome_ret].
    by destruct (existsb (json_eq_str "messages") l).
  - destruct (d !! "messages") as [v|] eqn:Hd.
    + destruct v as [| | | | |msgs|];
        try (unfold schedule, schedule_try; cbn [mbind Outcome_bind];
             rewrite Htruth;
             cbn [json_contains json_getitem mbind Outcome_bind mret Outcome_ret];
             rewrite Hd; by rewrite bool_decide_eq_true_2 by eauto).
      unfold schedule. rewrite (schedule_try_messages _ _ _ Hd).
      destruct (extract_users get_user_data 0 msgs []) as [users_data|e]; [|done].
      destruct (find_best_times_returns users_data) as [results Hres].
      exists results. split; [done|].
      cbn [mbind Outcome_bind]. by rewrite Hres.
    + unfold schedule, schedule_try. cbn [mbind Outcome_bind].
      rewrite Htruth. cbn [json_contains mbind Outcome_bind mret Outcome_ret].
      rewrite Hd. rewrite bool_decide_eq_false_2; [done|].
      intros [? ?]. done.
Qed.

Lemma append_not_empty (pre post : string) :
  pre +:+ "messages" +:+ post ≠ "".
Proof. destruct pre; discriminate. Qed.

Lemma json_truth_not_subscriptable (data : JSON) :
  not_subscriptable data → json_truth data = true.
Proof.
  intros [->|[(n & -> & Hn)|[(f & -> & Hf)|[(l & -> & Hl)|(pre & post & ->)]]]];
    simpl.
  - done.
  - apply negb_true_iff. by apply Z.eqb_neq.
  - by rewrite Hf.
  - destruct l; [by apply elem_of_nil in Hl|done].
  - apply negb_true_iff. apply String.eqb_neq. apply append_not_empty.
Qed.


(** X11: the handler answers 400 exactly when the body was decoded and is a
    false value, a dict without ["messages"], a dict whose ["messages"] entry
    is no list, a list without the element ["messages"], or a string that
    does not contain [messages]. *)
Theorem X11_status_400_iff (get_json : Outcome JSON)
    (get_user_data : nat → JSON → Outcome UserInput) :
  status (schedule get_json get_user_data) = 400 ↔
  ∃ data, get_json = Returned data ∧ rejected data.
Proof.
  pose proof (schedule_cases get_json get_user_data) as Hc. split.
  - intros Hs. destruct get_json as [data|e]; [|by rewrite Hc in Hs].
    exists data. split; [done|]. unfold rejected.
    destruct (negb (json_truth data)) eqn:Ht.
    { left. by apply negb_true_iff. }
    right. destruct data as [|b|n|f|s|l|d]; try (by rewrite Hc in Hs).
    + right; right; right. exists s. split; [done|].
      rewrite <-str_contains_iff.
      destruct (str_contains "messages" s); [by rewrite Hc in Hs|done].
    + right; right; left. exists l. split; [done|].
      rewrite <-existsb_json_eq_str.
      destruct (existsb (json_eq_str "messages") l); [by rewrite Hc in Hs|done].
    + destruct (d !! "messages") as [v|] eqn:Hd; [|left; by exists d].
      right; left. exists d, v. split; [done|]. split; [done|].
      intros msgs ->.
      destruct (extract_users get_user_data 0 msgs []) as [users_data|e].
      * destruct Hc as (results & _ & Hc). by rewrite Hc in Hs.
      * by rewrite Hc in Hs.
  - intros (data & -> & Hrej).
    destruct (negb (json_truth data)) eqn:Ht; [by rewrite Hc|].
    apply negb_false_iff in Ht.
    destruct Hrej as [Hf|[(d & -> & Hd)|[(d & v & -> & Hd & Hv)|
                      [(l & -> & Hl)|(s & -> & Hs)]]]].
    + congruence.
    + rewrite Hd in Hc. by rewrite Hc.
    + rewrite Hd in Hc. destruct v; try (by rewrite Hc). by destruct (Hv l).
    + rewrite <-existsb_json_eq_str in Hl.
      destruct (existsb (json_eq_str "messages") l); [done|by rewrite Hc].
    + rewrite <-str_contains_iff in Hs.
      destruct (str_contains "messages" s); [done|by rewrite Hc].
Qed.

(** X12: an answer with status 400 is given without regard to
    [get_user_data]: with any other extractor the answer is the same. *)
Theorem X12_status_400_without_extraction (get_json : Outcome JSON)
    (get_user_data get_user_data' : nat → JSON → Outcome UserInput) :
  status (schedule get_json get_user_data) = 400 →
  schedule get_json get_user_data' = schedule get_json get_user_data.
Proof.
  intros Hs.
  pose proof (schedule_cases get_json get_user_data) as Hc.
  pose proof (schedule_cases get_json get_user_data') as Hc'.
  destruct get_json as [data|e]; [|congruence].
  destruct (negb (json_truth data)); [congruence|].
  destruct data as [|b|n|f|s|l|d]; try congruence.
  - destruct (str_contains "messages" s); congruence.
  - destruct (existsb (json_eq_str "messages") l); congruence.
  - destruct (d !! "messages") as [v|]; [|congruence].
    destruct v as [| | | | |msgs|]; try congruence.
    destruct (extract_users get_user_data 0 msgs []) as [users_data|e].
    + destruct Hc as (results & _ & Hc). by rewrite Hc in Hs.
    + by rewrite Hc in Hs.
Qed.

(** X13: when [get_user_data] raises on a message and succeeded on all the
    messages before it, the handler answers 500 with that exception,
    whatever the later messages are: there is no partial result. *)
Theorem X13_first_failed_extraction (get_user_data : nat → JSON → Outcome UserInput)
    (d : gmap string JSON) (msgs : list JSON) (k : nat) (m : JSON)
    (e : Exception) :
  d !! "messages" = Some (JList msgs) →
  msgs !! k = Some m →
  get_user_data k m = Raised e →
  (∀ j m', (j < k)%nat → msgs !! j = Some m' →
           ∃ u, get_user_data j m' = Returned u) →
  schedule (Returned (JDict d)) get_user_data
  = {| body := error_str e; status := 500 |}.
Proof.
  intros Hd Hk Hg Hbefore. unfold schedule.
  rewrite (schedule_try_messages _ _ _ Hd).
  by rewrite (extract_users_raised get_user_data 0 k msgs [] m e).
Qed.

(** X14: a request whose ["messages"] list is empty is answered 200 with an
    empty list of recommended times, not with an error. *)
Theorem X14_empty_messages (get_user_data : nat → JSON → Outcome UserInput)
    (d : gmap string JSON) :
  d !! "messages" = Some (JList []) →
  schedule (Returned (JDict d)) get_user_data
  = {| body := recommended_times []; status := 200 |}.
Proof.
  intros Hd. unfold schedule. by rewrite (schedule_try_messages _ _ _ Hd).
Qed.

(** X15: a decoded body that is [true], a non-zero number, a list with the
    element ["messages"] or a string containing [messages] gets past the
    check of line 135 and is answered 500 (a [TypeError]), not 400. *)
Theorem X15_misshaped_body_is_500 (get_user_data : nat → JSON → Outcome UserInput)
    (data : JSON) :
  not_subscriptable data →
  schedule (Returned data) get_user_data
  = {| body := error_str TypeError; status := 500 |}.
Proof.
  intros Hn. pose proof (schedule_cases (Returned data) get_user_data) as Hc.
  cbn beta iota in Hc.
  rewrite (json_truth_not_subscriptable data Hn) in Hc. cbn [negb] in Hc.
  destruct Hn as [->|[(n & -> & Hn)|[(f & -> & Hf)|[(l & -> & Hl)|
                  (pre & post & ->)]]]]; try done.
  - apply existsb_json_eq_str in Hl. by rewrite Hl in Hc.
  - assert (str_contains "messages" (pre +:+ "messages" +:+ post) = true) as Hs.
    { apply str_contains_iff. by exists pre, post. }
    by rewrite Hs in Hc.
Qed.

(** ** The further theorems with hypotheses, at concrete inputs *)

Lemma X1_set_iteration_order_irrelevant_witness :
  (∀ s : gset Pair, reverse (elements s) ≡ₚ elements s) ∧
  find_best_times_iterating (λ s, reverse (elements s)) [participant_A]
  = find_best_times [participant_A].
Proof.
  split; [intros s; apply reverse_Permutation|].
  apply X1_set_iteration_order_irrelevant.
  intros s. apply reverse_Permutation.
Defined.

Lemma X2_participant_order_irrelevant_witness :
  [participant_A; participant_B] ≡ₚ [participant_B; participant_A] ∧
  find_best_times [participant_A; participant_B]
  = find_best_times [participant_B; participant_A].
Proof.
  split; [apply perm_swap|].
  apply X2_participant_order_irrelevant. apply perm_swap.
Defined.

Lemma participant_C_same_sets :
  Forall2 (λ u u', (∀ p, available_at u p ↔ available_at u' p) ∧
                   (∀ p, prefers u p ↔ prefers u' p))
          [participant_C] [participant_C_tidy].
Proof.
  constructor; [|constructor].
  split; intros p; unfold available_at, prefers; simpl;
    rewrite !elem_of_cons, elem_of_nil; tauto.
Qed.

Lemma X5_only_the_sets_matter_witness :
  Forall2 (λ u u', (∀ p, available_at u p ↔ available_at u' p) ∧
                   (∀ p, prefers u p ↔ prefers u' p))
          [participant_C] [participant_C_tidy] ∧
  find_best_times [participant_C] = find_best_times [participant_C_tidy].
Proof.
  split; [exact participant_C_same_sets|].
  apply X5_only_the_sets_matter. exact participant_C_same_sets.
Defined.

Lemma participant_A_keen_agrees :
  Forall2 (λ u u', available_slots u = available_slots u' ∧
                   (∀ p, in_intersection [participant_A; participant_B] p →
                         prefers u p ↔ prefers u' p))
          [participant_A; participant_B] [participant_A_keen; participant_B].
Proof.
  constructor; [|constructor; [done|constructor]].
  split; [done|]. intros p Hp.
  assert (available_at participant_B p) as HB.
  { apply Hp. rewrite !elem_of_cons. tauto. }
  unfold available_at in HB. simpl in HB.
  apply list_elem_of_singleton in HB as ->.
  unfold prefers. simpl. rewrite !elem_of_cons, elem_of_nil. tauto.
Qed.

Lemma X6_preferences_outside_common_slots_ignored_witness :
  Forall2 (λ u u', available_slots u = available_slots u' ∧
                   (∀ p, in_intersection [participant_A; participant_B] p →
                         prefers u p ↔ prefers u' p))
          [participant_A; participant_B] [participant_A_keen; participant_B] ∧
  find_best_times [participant_A; participant_B]
  = find_best_times [participant_A_keen; participant_B].
Proof.
  split; [exact participant_A_keen_agrees|].
  apply X6_preferences_outside_common_slots_ignored.
  exact participant_A_keen_agrees.
Defined.

Lemma X7_more_participants_fewer_slots_witness :
  [participant_A] ≠ [] ∧
  ∃ out out', find_best_times [participant_A] = Ok out ∧
              find_best_times ([participant_A] ++ [participant_B]) = Ok out' ∧
              ∀ p, p ∈ slot_pairs out' → p ∈ slot_pairs out.
Proof.
  split; [done|]. apply X7_more_participants_fewer_slots. done.
Defined.

Lemma X8_length_bounded_by_each_participant_witness :
  participant_B ∈ [participant_A; participant_B] ∧
  ∃ out, find_best_times [participant_A; participant_B] = Ok out ∧
         (length out ≤ length (available_slots participant_B))%nat.
Proof.
  assert (participant_B ∈ [participant_A; participant_B]) as Hin.
  { rewrite !elem_of_cons. tauto. }
  split; [exact Hin|].
  apply X8_length_bounded_by_each_participant. exact Hin.
Defined.

Lemma X9_validated_input_bounds_output_witness :
  participant_A ∈ [participant_A; participant_B] ∧
  Forall (λ s, hour_in_range (hour s)) (available_slots participant_A) ∧
  ∃ out, find_best_times [participant_A; participant_B] = Ok out ∧
         (∀ r, r ∈ out → hour_in_range (rs_hour r)) ∧
         (length out ≤ 40)%nat.
Proof.
  assert (participant_A ∈ [participant_A; participant_B]) as Hin.
  { rewrite !elem_of_cons. tauto. }
  assert (Forall (λ s, hour_in_range (hour s))
                 (available_slots participant_A)) as Hvalid.
  { repeat constructor; simpl; lia. }
  split; [exact Hin|]. split; [exact Hvalid|].
  apply (X9_validated_input_bounds_output _ participant_A); [exact Hin|].
  exact Hvalid.
Defined.

Lemma X12_status_400_without_extraction_witness :
  status (schedule (Returned (JList [JStr "mornings"])) sample_extractor) = 400 ∧
  schedule (Returned (JList [JStr "mornings"])) (λ _ _, Raised TypeError)
  = schedule (Returned (JList [JStr "mornings"])) sample_extractor.
Proof.
  split; [reflexivity|].
  apply X12_status_400_without_extraction. reflexivity.
Defined.

Lemma sample_request_before_failure (j : nat) (m' : JSON) :
  (j < 1)%nat → sample_messages !! j = Some m' →
  ∃ u, sample_extractor j m' = Returned u.
Proof.
  intros Hj Hm. destruct j as [|j]; [|lia]. simpl in Hm.
  inversion Hm; subst. by exists participant_A.
Qed.

Lemma X13_first_failed_extraction_witness :
  sample_request !! "messages" = Some (JList sample_messages) ∧
  sample_messages !! 1%nat = Some (JInt 3) ∧
  sample_extractor 1 (JInt 3) = Raised (Other "no text") ∧
  (∀ j m', (j < 1)%nat → sample_messages !! j = Some m' →
           ∃ u, sample_extractor j m' = Returned u) ∧
  schedule (Returned (JDict sample_request)) sample_extractor
  = {| body := error_str (Other "no text"); status := 500 |}.
Proof.
  assert (sample_request !! "messages" = Some (JList sample_messages)) as Hd.
  { apply lookup_singleton_eq. }
  split; [exact Hd|]. split; [reflexivity|]. split; [reflexivity|].
  split; [exact sample_request_before_failure|].
  apply (X13_first_failed_extraction sample_extractor sample_request
           sample_messages 1 (JInt 3));
    [exact Hd|reflexivity|reflexivity|exact sample_request_before_failure].
Defined.

Lemma X14_empty_messages_witness :
  ({[ "messages" := JList [] ]} : gmap string JSON) !! "messages"
  = Some (JList []) ∧
  schedule (Returned (JDict {[ "messages" := JList [] ]})) sample_extractor
  = {| body := recommended_times []; status := 200 |}.
Proof.
  split; [apply lookup_singleton_eq|].
  apply X14_empty_messages. apply lookup_singleton_eq.
Defined.

Lemma X15_misshaped_body_is_500_witness :
  not_subscriptable (JStr ("no " +:+ "messages" +:+ " today")) ∧
  schedule (Returned (JStr ("no " +:+ "messages" +:+ " today"))) sample_extractor
  = {| body := error_str TypeError; status := 500 |}.
Proof.
  assert (not_subscriptable (JStr ("no " +:+ "messages" +:+ " today"))) as Hn.
  { do 4 right. by exists "no ", " today". }
  split; [exact Hn|].
  apply X15_misshaped_body_is_500. exact Hn.
Defined.

Lemma extract_users_raised_inv (get_user_data : nat → JSON → Outcome UserInput)
    (i : nat) (msgs : list JSON) (users_data : list UserInput) (e : Exception) :
  extract_users get_user_data i msgs users_data = Raised e →
  ∃ k m, msgs !! k = Some m ∧ get_user_data (i + k)%nat m = Raised e.
Proof.
  revert i users_data.
  induction msgs as [|m0 msgs IH]; intros i users_data; simpl; [done|].
  destruct (get_user_data i m0) as [u0|e0] eqn:Hg; simpl.
  - intros Hx. destruct (IH _ _ Hx) as (k & m & Hk & Hgk).
    exists (S k), m. split; [done|].
    by replace (i + S k)%nat with (S i + k)%nat by lia.
  - intros [= <-]. exists 0%nat, m0. split; [done|]. by rewrite Nat.add_0_r.
Qed.

Lemma not_subscriptable_iff (data : JSON) :
  not_subscriptable data ↔
  json_truth data = true ∧
  match data with
  | JDict _ => False
  | JList l => existsb (json_eq_str "messages") l = true
  | JStr s => str_contains "messages" s = true
  | _ => True
  end.
Proof.
  split.
  - intros Hn. split; [by apply json_truth_not_subscriptable|].
    destruct Hn as [->|[(n & -> & Hn)|[(f & -> & Hf)|[(l & -> & Hl)|
                    (pre & post & ->)]]]]; try done.
    + by apply existsb_json_eq_str.
    + apply str_contains_iff. by exists pre, post.
  - intros [Ht Hshape]. unfold not_subscriptable.
    destruct data as [|b|n|f|s|l|d]; simpl in Ht; try done.
    + left. by subst.
    + right; left. exists n. split; [done|].
      apply negb_true_iff in Ht. by apply Z.eqb_neq.
    + right; right; left. exists f. split; [done|]. by apply negb_true_iff.
    + do 4 right. apply str_contains_iff in Hshape as (pre & post & ->). eauto.
    + do 3 right. left. exists l. split; [done|]. by apply existsb_json_eq_str.
Qed.

(** X16: the handler answers 500 exactly when [request.get_json()] raises,
    when the decoded body is [true], a non-zero number, a list with the
    element ["messages"] or a string containing [messages], or when the
    body is a dict with a list under ["messages"] and [get_user_data] raises
    on one of the messages.  In particular [find_best_times] is never the
    cause of a 500. *)
Theorem X16_status_500_iff (get_json : Outcome JSON)
    (get_user_data : nat → JSON → Outcome UserInput) :
  status (schedule get_json get_user_data) = 500 ↔
  (∃ e, get_json = Raised e) ∨
  (∃ data, get_json = Returned data ∧ not_subscriptable data) ∨
  (∃ d msgs k m e,
     get_json = Returned (JDict d) ∧ d !! "messages" = Some (JList msgs) ∧
     msgs !! k = Some m ∧ get_user_data k m = Raised e).
Proof.
  pose proof (schedule_cases get_json get_user_data) as Hc. split.
  - intros Hs. destruct get_json as [data|e]; [|left; by exists e].
    right. destruct (negb (json_truth data)) eqn:Ht; [by rewrite Hc in Hs|].
    apply negb_false_iff in Ht.
    destruct data as [|b|n|f|s|l|d].
    + done.
    + left. eexists. split; [done|]. by apply not_subscriptable_iff.
    + left. eexists. split; [done|]. by apply not_subscriptable_iff.
    + left. eexists. split; [done|]. by apply not_subscriptable_iff.
    + left. eexists. split; [done|]. apply not_subscriptable_iff.
      split; [done|].
      destruct (str_contains "messages" s); [done|by rewrite Hc in Hs].
    + left. eexists. split; [done|]. apply not_subscriptable_iff.
      split; [done|].
      destruct (existsb (json_eq_str "messages") l); [done|by rewrite Hc in Hs].
    + right. destruct (d !! "messages") as [v|] eqn:Hd; [|by rewrite Hc in Hs].
      destruct v as [| | | | |msgs|]; try (by rewrite Hc in Hs).
      destruct (extract_users get_user_data 0 msgs []) as [users_data|e] eqn:Hx.
      * destruct Hc as (results & _ & Hc). by rewrite Hc in Hs.
      * apply extract_users_raised_inv in Hx as (k & m & Hk & Hg).
        by exists d, msgs, k, m, e.
  - intros [[e ->]|[(data & -> & Hn)|(d & msgs & k & m & e & -> & Hd & Hk & Hg)]].
    + by rewrite Hc.
    + apply not_subscriptable_iff in Hn as [Ht Hshape].
      rewrite Ht in Hc. cbn [negb] in Hc.
      destruct data as [|b|n|f|s|l|d]; try done; try (by rewrite Hc).
      * rewrite Hshape in Hc. by rewrite Hc.
      * rewrite Hshape in Hc. by rewrite Hc.
    + unfold schedule. rewrite (schedule_try_messages _ _ _ Hd).
      destruct (extract_users get_user_data 0 msgs []) as [users_data|e'] eqn:Hx;
        [|done].
      apply extract_users_returned in Hx as (new & _ & _ & Hall).
      destruct (Hall k m Hk) as (u & _ & Hgu). simpl in Hgu. congruence.
Qed.
